(** * TaskFlow: the task dependency graph engine

    A shallow embedding of the dependency logic of the TaskFlow task board:

    - the task store behind the Prisma client (tasks keyed by id, with the
      self-referencing many-to-many relation [dependencies]);
    - [app/api/tasks/[id]/dependencies/route.ts]: the endpoint that adds
      dependencies, with its cycle check;
    - [app/api/tasks/[id]/route.ts]: the task update endpoint ([PUT]) with
      the completion gate, its own cycle check, and the status
      normalisation, and the [DELETE] endpoint;
    - [app/api/tasks/route.ts]: task creation;
    - [app/api/tasks/analysis/route.ts]: earliest start dates, critical
      path, total duration.

    Conventions.  Task ids and titles are strings.  A [Date] is the number of
    milliseconds since the epoch, a [Z].  A JavaScript [Set<string>] is a
    [gset string] and a [Map<string, _>] is a [gmap string _].  An object
    created by the literal [{}] and used as a dictionary is the [gmap] of its
    own properties, written through [setProperty].  The recursive graph
    searches take a fuel argument; the totality lemmas show the fuel the
    callers pass is always enough. *)

From Stdlib Require Import ZArith Lia Ascii String.
From stdpp Require Import gmap strings list fin_maps relations.

Local Open Scope Z_scope.

Set Warnings "-clear-no-such-hyp".

(** ** Data model *)

(** The [TaskStatus] enum of the database schema. *)
Inductive TaskStatus := TODO | IN_PROGRESS | DONE.

Global Instance TaskStatus_eq_dec : EqDecision TaskStatus.
Proof. solve_decision. Defined.

(** A task row together with its [dependencies] relation, as
    [include: { dependencies: ... }] returns it: the related tasks are
    represented by their ids, in the order the query returns them.  Only the
    fields that the dependency logic reads are kept. *)
Record Task := mkTask {
  id : string;
  title : string;
  status : TaskStatus;
  dueDate : Z;
  completedAt : option Z;
  dependencies : list string
}.

(** The task table: rows keyed by primary key. *)
Abbreviation Store := (gmap string Task).

(** The edge [a -> b]: task [a] has [b] in its dependency set. *)
Definition depends (db : Store) (a b : string) : Prop :=
  ∃ t, db !! a = Some t ∧ b ∈ dependencies t.

(** The dependency graph is a DAG: no task is reachable from itself along
    one or more dependency edges. *)
Definition acyclic (db : Store) : Prop := ∀ t, ¬ tc (depends db) t t.

(** The outcomes of a request handler.  [Stuck] is the fuel of a graph
    search running out; the handlers never produce it (see the totality
    lemmas). *)
Inductive Response :=
  | Updated (db : Store)
  | NotFound
  | InvalidInput
  | CircularDependency
  | IncompleteDependencies (blocking : list (string * string))
  | ServerError
  | Stuck.

(** ** The Prisma client operations the handlers use *)
Module Prisma.

(** [include: { dependencies: ... }]: the join returns the rows of the
    related tasks. *)
Definition includeDependencies (db : Store) (t : Task) : list Task :=
  omap (λ d, db !! d) (dependencies t).

Definition withDependencies (t : Task) (deps : list string) : Task :=
  mkTask (id t) (title t) (status t) (dueDate t) (completedAt t) deps.

Definition withStatus (t : Task) (s : TaskStatus) : Task :=
  mkTask (id t) (title t) s (dueDate t) (completedAt t) (dependencies t).

(** Every id of a [connect] must name an existing row, otherwise the
    client throws and nothing is written. *)
Definition allExist (db : Store) (ids : list string) : bool :=
  forallb (λ d, bool_decide (is_Some (db !! d))) ids.

(** [dependencies: { connect: ids }]: rows are added to the relation
    table; a pair that is already related stays as it is. *)
Definition connect (old ids : list string) : list string :=
  fold_left (λ acc d, if decide (d ∈ acc) then acc else acc ++ [d]) ids old.

(** [prisma.task.delete]: the row goes, and with it every row of the
    relation table that mentions it. *)
Definition deleteTask (db : Store) (taskId : string) : Store :=
  (λ t, withDependencies t (filter (λ d, d ≠ taskId) (dependencies t)))
    <$> delete taskId db.

End Prisma.

(** ** [app/api/tasks/[id]/dependencies/route.ts] *)
Module DependenciesRoute.

(** The two mutable sets threaded through the search. *)
Record Sets := mkSets { visited : gset string; recursionStack : gset string }.

Definition leave (taskId : string) (s : Sets) : Sets :=
  mkSets (visited s) (recursionStack s ∖ {[taskId]}).

(** The [for (const dep of task.dependencies)] loop of
    [hasCircularDependency], with the recursive call abstracted. *)
Fixpoint forDependencies (rec : string → Sets → option (bool * Sets))
    (taskId originalTaskId : string) (deps : list string) (s : Sets)
    : option (bool * Sets) :=
  match deps with
  | [] => Some (false, leave taskId s)
  | dep :: rest =>
      if decide (dep = originalTaskId) then Some (true, leave taskId s)
      else
        match rec dep s with
        | None => None
        | Some (true, s') => Some (true, s')
        | Some (false, s') =>
            forDependencies rec taskId originalTaskId rest s'
        end
  end.

Fixpoint hasCircularDependency (fuel : nat) (db : Store) (taskId : string)
    (s : Sets) (originalTaskId : string) : option (bool * Sets) :=
  match fuel with
  | O => None
  | S fuel' =>
      if decide (taskId ∈ recursionStack s) then Some (true, s)
      else if decide (taskId ∈ visited s) then Some (false, s)
      else
        let s1 := mkSets ({[taskId]} ∪ visited s)
                         ({[taskId]} ∪ recursionStack s) in
        match db !! taskId with
        | None => Some (false, leave taskId s1)
        | Some task =>
            forDependencies
              (λ d s', hasCircularDependency fuel' db d s' originalTaskId)
              taskId originalTaskId (dependencies task) s1
        end
  end.

(** The [for (const depId of newDependencies)] loop of
    [checkCircularDependencies]. *)
Fixpoint forNewDependencies (fuel : nat) (db : Store) (taskId : string)
    (newDependencies : list string) (s : Sets) : option bool :=
  match newDependencies with
  | [] => Some false
  | depId :: rest =>
      match hasCircularDependency fuel db depId s taskId with
      | None => None
      | Some (true, _) => Some true
      | Some (false, s') => forNewDependencies fuel db taskId rest s'
      end
  end.

Definition checkCircularDependencies (db : Store) (taskId : string)
    (newDependencies : list string) : option bool :=
  forNewDependencies (S (size db)) db taskId newDependencies (mkSets ∅ ∅).

(** [POST]: the body's [dependencies] is [None] when it is missing or not
    an array. *)
Definition POST (db : Store) (taskId : string)
    (body : option (list string)) : Response :=
  match body with
  | None => InvalidInput
  | Some deps =>
      match db !! taskId with
      | None => NotFound
      | Some task =>
          match checkCircularDependencies db taskId deps with
          | None => Stuck
          | Some true => CircularDependency
          | Some false =>
              if Prisma.allExist db deps then
                Updated (<[taskId :=
                  Prisma.withDependencies task
                    (Prisma.connect (dependencies task) deps)]> db)
              else ServerError
          end
      end
  end.

End DependenciesRoute.

(** ** [app/api/tasks/[id]/route.ts] *)
Module TaskRoute.

(** [String.prototype.toLowerCase] on the letters A-Z.  No other character
    lowercases to a letter of [todo], [in-progress] or [done], so the
    [switch] of [convertStatusToEnum] takes the same branch. *)
Definition lowerChar (c : ascii) : ascii :=
  let n := nat_of_ascii c in
  if ((65 <=? n) && (n <=? 90))%nat then ascii_of_nat (n + 32) else c.

Fixpoint toLowerCase (s : string) : string :=
  match s with
  | EmptyString => EmptyString
  | String c rest => String (lowerChar c) (toLowerCase rest)
  end.

Definition convertStatusToEnum (status : string) : TaskStatus :=
  let s := toLowerCase status in
  if decide (s = "todo") then TODO
  else if decide (s = "in-progress") then IN_PROGRESS
  else if decide (s = "done") then DONE
  else TODO.

(** The fields of the request body that the dependency logic reads; a
    field is [None] when the body does not carry it. *)
Module Body.
Record t := mk { status : option string; dependencies : option (list string) }.
End Body.

(** [status ? convertStatusToEnum(status) : undefined]: the empty string
    is falsy. *)
Definition normalizedStatus (body : Body.t) : option TaskStatus :=
  match Body.status body with
  | Some s => if decide (s = "") then None else Some (convertStatusToEnum s)
  | None => None
  end.

(** The loop over [task.dependencies] of [hasCircularDependency]. *)
Fixpoint forDependencies
    (rec : string → gset string → option (bool * gset string))
    (deps : list string) (visited : gset string)
    : option (bool * gset string) :=
  match deps with
  | [] => Some (false, visited)
  | dep :: rest =>
      match rec dep visited with
      | None => None
      | Some (true, visited') => Some (true, visited')
      | Some (false, visited') => forDependencies rec rest visited'
      end
  end.

Fixpoint hasCircularDependency (fuel : nat) (db : Store) (taskId : string)
    (visited : gset string) (targetIds : list string)
    : option (bool * gset string) :=
  match fuel with
  | O => None
  | S fuel' =>
      if decide (taskId ∈ visited) then Some (false, visited)
      else if decide (taskId ∈ targetIds) then Some (true, visited)
      else
        let visited1 := {[taskId]} ∪ visited in
        match db !! taskId with
        | None => Some (false, visited1)
        | Some task =>
            forDependencies
              (λ d v, hasCircularDependency fuel' db d v targetIds)
              (dependencies task) visited1
        end
  end.

(** The loop of [checkCircularDependencies]: a fresh [visited] set for
    each proposed id, and the target list [[taskId, ...dependencyIds]]. *)
Fixpoint forDependencyIds (fuel : nat) (db : Store)
    (targetIds : list string) (rest : list string) : option bool :=
  match rest with
  | [] => Some false
  | depId :: rest' =>
      match hasCircularDependency fuel db depId ∅ targetIds with
      | None => None
      | Some (true, _) => Some true
      | Some (false, _) => forDependencyIds fuel db targetIds rest'
      end
  end.

Definition checkCircularDependencies (db : Store) (taskId : string)
    (dependencyIds : list string) : option bool :=
  forDependencyIds (S (size db)) db (taskId :: dependencyIds) dependencyIds.

(** [existingTask.dependencies.filter(dep => dep.status !== 'DONE')] *)
Definition incompleteDependencies (db : Store) (existingTask : Task)
    : list Task :=
  filter (λ dep, status dep ≠ DONE)
         (Prisma.includeDependencies db existingTask).

(** The [data] of [prisma.task.update]: [status] is written when it is
    defined; [dependencies] is cleared and reconnected when the body
    carries the field. *)
Definition update (db : Store) (taskId : string) (existingTask : Task)
    (body : Body.t) : Response :=
  let t1 := match normalizedStatus body with
            | Some s => Prisma.withStatus existingTask s
            | None => existingTask
            end in
  match Body.dependencies body with
  | None => Updated (<[taskId := t1]> db)
  | Some deps =>
      if Prisma.allExist db deps then
        Updated (<[taskId :=
          Prisma.withDependencies t1 (Prisma.connect [] deps)]> db)
      else ServerError
  end.

Definition PUT (db : Store) (taskId : string) (body : Body.t) : Response :=
  match db !! taskId with
  | None => NotFound
  | Some existingTask =>
      let incomplete := incompleteDependencies db existingTask in
      if decide (normalizedStatus body = Some DONE ∧ incomplete ≠ []) then
        IncompleteDependencies (map (λ dep, (id dep, title dep)) incomplete)
      else
        match Body.dependencies body with
        | Some (d :: ds) =>
            match checkCircularDependencies db taskId (d :: ds) with
            | None => Stuck
            | Some true => CircularDependency
            | Some false => update db taskId existingTask body
            end
        | _ => update db taskId existingTask body
        end
  end.

Definition DELETE (db : Store) (taskId : string) : Response :=
  match db !! taskId with
  | None => NotFound
  | Some _ => Updated (Prisma.deleteTask db taskId)
  end.

End TaskRoute.

(** ** [app/api/tasks/route.ts]: task creation *)
Module TasksRoute.

(** [POST]: [newId] is the key the database generates for the row; a key
    that is taken violates the primary key and the client throws.  New
    tasks get the default status [TODO].  No cycle check is made. *)
Definition POST (db : Store) (newId title : string) (due : option Z)
    (deps : option (list string)) : Response :=
  match due with
  | None => InvalidInput
  | Some dueDate =>
      if decide (title = "") then InvalidInput
      else
        match db !! newId with
        | Some _ => ServerError
        | None =>
            let ds := default [] deps in
            if Prisma.allExist db ds then
              Updated (<[newId :=
                mkTask newId title TODO dueDate None
                       (Prisma.connect [] ds)]> db)
            else ServerError
        end
  end.

End TasksRoute.

(** ** Sequences of operations on the store *)

Inductive Operation :=
  | CreateTask (newId title : string) (due : option Z)
               (deps : option (list string))
  | AddDependencies (taskId : string) (deps : option (list string))
  | UpdateTask (taskId : string) (body : TaskRoute.Body.t)
  | DeleteTask (taskId : string).

Definition perform (db : Store) (op : Operation) : Response :=
  match op with
  | CreateTask newId title due deps => TasksRoute.POST db newId title due deps
  | AddDependencies taskId deps => DependenciesRoute.POST db taskId deps
  | UpdateTask taskId body => TaskRoute.PUT db taskId body
  | DeleteTask taskId => TaskRoute.DELETE db taskId
  end.

(** Runs the operations in order; the result is [Some] of the final store
    when every one of them was accepted. *)
Fixpoint runAccepted (db : Store) (ops : list Operation) : option Store :=
  match ops with
  | [] => Some db
  | op :: rest =>
      match perform db op with
      | Updated db' => runAccepted db' rest
      | _ => None
      end
  end.

(** ** [app/api/tasks/analysis/route.ts] *)
Module Analysis.

(** [new Map(entries)]: a later entry with the same key replaces an earlier
    one. *)
Definition newMap {V} (entries : list (string * V)) : gmap string V :=
  fold_left (λ m kv, <[kv.1 := kv.2]> m) entries ∅.

(** [new Map(tasks.map(task => [task.id, task]))] *)
Definition idMap (tasks : list Task) : gmap string Task :=
  newMap (map (λ task, (id task, task)) tasks).

(** [new Map(tasks.map(task => [task.title, task]))] *)
Definition titleMap (tasks : list Task) : gmap string Task :=
  newMap (map (λ task, (title task, task)) tasks).

(** The date a dependency counts as finished at: [completedAt] when it is
    done and has one, its due date otherwise. *)
Definition completionDate (dependency : Task) : Z :=
  match status dependency, completedAt dependency with
  | DONE, Some c => c
  | _, _ => dueDate dependency
  end.

(** [calculateEarliestStartDate]: [now] is the value of [new Date()]; the
    running maximum starts at [new Date(0)]. *)
Definition calculateEarliestStartDate (now : Z) (task : Task)
    (taskMap : gmap string Task) : Z :=
  match dependencies task with
  | [] => now
  | deps =>
      fold_left
        (λ latestCompletionDate dep,
           match taskMap !! dep with
           | Some dependency =>
               if latestCompletionDate <? completionDate dependency
               then completionDate dependency
               else latestCompletionDate
           | None => latestCompletionDate
           end)
        deps 0
  end.

(** [obj[key] = value] on an object created by the literal [{}], for a
    value that is a string.  The key [__proto__] is not an own property: the
    assignment reaches the accessor inherited from [Object.prototype], whose
    setter ignores a value that is neither an object nor [null], so nothing
    is stored.  Every other key becomes an own property of the object, or
    overwrites the one it has.  The map is the map of the own properties,
    which are what the JSON response lists. *)
Definition setProperty {V} (obj : gmap string V) (key : string) (value : V)
    : gmap string V :=
  if decide (key = "__proto__") then obj else <[key := value]> obj.

(** [calculateEarliestStartDates]: the result is an object literal keyed by
    title; the stored value stands for the ISO string of the date. *)
Definition calculateEarliestStartDates (now : Z) (tasks : list Task)
    : gmap string Z :=
  let taskMap := idMap tasks in
  fold_left
    (λ earliestStartDates task,
       setProperty earliestStartDates (title task)
         (calculateEarliestStartDate now task taskMap))
    tasks ∅.

(** The [visited] set and the [pathLengths] map shared by all calls of
    [dfs]. *)
Record Memo := mkMemo { visited : gset string; pathLengths : gmap string nat }.

Definition setLength (taskId : string) (n : nat) (m : Memo) : Memo :=
  mkMemo (visited m) (<[taskId := n]> (pathLengths m)).

(** The [task.dependencies.forEach] of [dfs]; the loop variables are
    [maxLength] and [longestPath]. *)
Fixpoint forDependencies (rec : string → Memo → option (list string * Memo))
    (deps : list string) (maxLength : nat) (longestPath : list string)
    (m : Memo) : option (list string * Memo) :=
  match deps with
  | [] => Some (longestPath, m)
  | dep :: rest =>
      match rec dep m with
      | None => None
      | Some (depPath, m') =>
          if (maxLength <? length depPath)%nat
          then forDependencies rec rest (length depPath) depPath m'
          else forDependencies rec rest maxLength longestPath m'
      end
  end.

Fixpoint dfs (fuel : nat) (taskMap : gmap string Task) (taskId : string)
    (m : Memo) : option (list string * Memo) :=
  match fuel with
  | O => None
  | S fuel' =>
      if decide (taskId ∈ visited m) then
        Some (if decide (is_Some (pathLengths m !! taskId))
              then [taskId] else [], m)
      else
        let m1 := mkMemo ({[taskId]} ∪ visited m) (pathLengths m) in
        match taskMap !! taskId with
        | None => Some ([taskId], setLength taskId 1 m1)
        | Some task =>
            match dependencies task with
            | [] => Some ([taskId], setLength taskId 1 m1)
            | deps =>
                match forDependencies (dfs fuel' taskMap) deps 0 [] m1 with
                | None => None
                | Some (longestPath, m2) =>
                    let currentPath := longestPath ++ [taskId] in
                    Some (currentPath,
                          setLength taskId (length currentPath) m2)
                end
            end
        end
  end.

(** The [tasks.forEach] of [findCriticalPath]; the loop variables are
    [maxLength] and [criticalPath]. *)
Fixpoint forTasks (fuel : nat) (taskMap : gmap string Task)
    (tasks : list Task) (maxLength : nat) (criticalPath : list string)
    (m : Memo) : option (list string) :=
  match tasks with
  | [] => Some criticalPath
  | task :: rest =>
      if decide (id task ∈ visited m) then
        forTasks fuel taskMap rest maxLength criticalPath m
      else
        match dfs fuel taskMap (id task) m with
        | None => None
        | Some (path, m') =>
            if (maxLength <? length path)%nat
            then forTasks fuel taskMap rest (length path) path m'
            else forTasks fuel taskMap rest maxLength criticalPath m'
        end
  end.

(** The critical path as task ids, before the conversion to titles. *)
Definition criticalPathIds (tasks : list Task) : option (list string) :=
  forTasks (S (length tasks)) (idMap tasks) tasks 0 [] (mkMemo ∅ ∅).

Definition titleOf (taskMap : gmap string Task) (taskId : string) : string :=
  match taskMap !! taskId with
  | Some task => title task
  | None => taskId
  end.

Definition findCriticalPath (tasks : list Task) : option (list string) :=
  map (titleOf (idMap tasks)) <$> criticalPathIds tasks.

(** [Math.ceil(ms / (1000 * 60 * 60 * 24))] on an integer number of
    milliseconds, as exact rounding up of the quotient. *)
Definition msPerDay : Z := 1000 * 60 * 60 * 24.

Definition ceilDays (ms : Z) : Z := - ((- ms) / msPerDay).

(** [Math.max(1, daysDiff)] for one task. *)
Definition days (now : Z) (task : Task) : Z :=
  Z.max 1 (ceilDays (dueDate task - now)).

(** [calculateTotalDuration]: the entries of [criticalPath] are looked up in
    the map keyed by title.  The due date of a row is a [Date], which is
    truthy. *)
Definition calculateTotalDuration (now : Z) (tasks : list Task)
    (criticalPath : list string) : Z :=
  match criticalPath with
  | [] => 0
  | _ =>
      let taskMap := titleMap tasks in
      fold_left
        (λ totalDays entry,
           match taskMap !! entry with
           | Some task => totalDays + days now task
           | None => totalDays
           end)
        criticalPath 0
  end.

Record Result := mkResult {
  earliestStartDates : gmap string Z;
  criticalPath : list string;
  totalDuration : Z
}.

(** [GET]: [tasks] is the result of [findMany], all rows with their
    dependencies. *)
Definition GET (now : Z) (tasks : list Task) : option Result :=
  match findCriticalPath tasks with
  | None => None
  | Some path =>
      Some (mkResult (calculateEarliestStartDates now tasks) path
                     (calculateTotalDuration now tasks path))
  end.

End Analysis.

(** ** The propagated earliest start of the design document

    Not what the analysis computes, but what the design describes: the
    latest completion date over every task that [task] depends on, directly
    or through a chain of dependencies.  [depth] bounds the length of the
    chains followed (the number of tasks is enough when the graph is
    acyclic). *)
Module Propagated.

Fixpoint latestCompletion (depth : nat) (taskMap : gmap string Task)
    (deps : list string) : Z :=
  match depth with
  | O => 0
  | S depth' =>
      fold_left
        (λ latest dep,
           match taskMap !! dep with
           | Some dependency =>
               Z.max latest
                 (Z.max (Analysis.completionDate dependency)
                    (latestCompletion depth' taskMap
                       (dependencies dependency)))
           | None => latest
           end)
        deps 0
  end.

Definition earliestStart (now : Z) (tasks : list Task) (task : Task) : Z :=
  match dependencies task with
  | [] => now
  | deps => latestCompletion (length tasks) (Analysis.idMap tasks) deps
  end.

End Propagated.

(** A chain of tasks: each task of the list depends on the one before it,
    so the list runs from upstream to downstream. *)
Fixpoint isChain (taskMap : gmap string Task) (path : list string) : Prop :=
  match path with
  | [] => True
  | a :: rest =>
      match rest with
      | [] => is_Some (taskMap !! a)
      | b :: _ =>
          is_Some (taskMap !! a) ∧
          (∃ t, taskMap !! b = Some t ∧ a ∈ dependencies t) ∧
          isChain taskMap rest
      end
  end.

(** The sum of a list of day counts. *)
Definition sumZ (l : list Z) : Z := foldr Z.add 0 l.

(** [dep] is a dependency of [task] that is not done: it blocks the
    completion of [task]. *)
Definition blocks (db : Store) (task dep : Task) : Prop :=
  ∃ d, d ∈ dependencies task ∧ db !! d = Some dep ∧ status dep ≠ DONE.

(** What a call of [dfs] started with the memo [m] guarantees: it returns,
    it only adds to [visited], and its path stays in the set [D]. *)
Definition returns (D : string → Prop) (m : Analysis.Memo)
    (r : option (list string * Analysis.Memo)) : Prop :=
  ∃ path m', r = Some (path, m')
    ∧ Analysis.visited m ⊆ Analysis.visited m'
    ∧ ∀ x, x ∈ path → D x.

(** Referential integrity: every dependency names a row of the table. *)
Definition wellFormed (db : Store) : Prop :=
  ∀ x t d, db !! x = Some t → d ∈ dependencies t → is_Some (db !! d).

(** The invariant of the search of the dependencies endpoint: a task that
    was visited and has left the recursion stack has all its dependencies
    visited, and none of them is the task the check is for. *)
Definition explored (db : Store) (originalTaskId : string)
    (s : DependenciesRoute.Sets) : Prop :=
  ∀ x y, x ∈ DependenciesRoute.visited s →
         x ∉ DependenciesRoute.recursionStack s →
         depends db x y →
         y ≠ originalTaskId ∧ y ∈ DependenciesRoute.visited s.

(** An operation that does not propose a task as its own dependency on the
    dependencies endpoint. *)
Definition selfFree (op : Operation) : Prop :=
  match op with
  | AddDependencies taskId (Some deps) => taskId ∉ deps
  | _ => True
  end.

(** ** Sample data *)
Module Sample.

Definition day : Z := Analysis.msPerDay.

(** Three tasks without dependencies. *)
Definition a0 := mkTask "a" "Research topic" TODO (1 * day) None [].
Definition b0 := mkTask "b" "Write report" TODO (5 * day) None [].
Definition c0 := mkTask "c" "Make slides" TODO (7 * day) None [].

Definition independent : Store := <["a" := a0]> (<["b" := b0]> ∅).

(** Task [a] depends on [b]; [c] is unrelated. *)
Definition a2 := mkTask "a" "Research topic" TODO (1 * day) None ["b"].

Definition related : Store :=
  <["a" := a2]> (<["b" := b0]> (<["c" := c0]> ∅)).

(** The chain [c -> b -> a]; the most upstream task is due last. *)
Definition a1 := mkTask "a" "Research topic" TODO (10 * day) None [].
Definition b1 := mkTask "b" "Write report" TODO (5 * day) None ["a"].
Definition c1 := mkTask "c" "Make slides" TODO (7 * day) None ["b"].

(** The same chain as a store. *)
Definition chainStore : Store :=
  <["a" := a1]> (<["b" := b1]> (<["c" := c1]> ∅)).

(** The rows in the order [findMany] returned them. *)
Definition chain : list Task := [b1; a1; c1].

End Sample.

(** ** Removing dependencies: [DELETE] of
    [app/api/tasks/[id]/dependencies/route.ts] *)
Module DependenciesRemoval.

(** [dependencies: { disconnect: ids }]: the rows of the relation table that
    pair the task with one of [ids] are deleted; an id that is not related
    to the task changes nothing. *)
Definition disconnect (old ids : list string) : list string :=
  filter (λ d, d ∉ ids) old.

(** [DELETE]: the body's [dependencies] is [None] when it is missing or not
    an array.  The handler does not look the task up first: for an unknown
    task [prisma.task.update] throws and the answer is the status 500. *)
Definition DELETE (db : Store) (taskId : string)
    (body : option (list string)) : Response :=
  match body with
  | None => InvalidInput
  | Some deps =>
      match db !! taskId with
      | None => ServerError
      | Some task =>
          Updated (<[taskId :=
            Prisma.withDependencies task
              (disconnect (dependencies task) deps)]> db)
      end
  end.

End DependenciesRemoval.

(** ** Status values on the wire: the helpers of
    [app/api/tasks/[id]/route.ts] and [app/api/tasks/route.ts] *)
Module StatusFormat.

(** The string the database client uses for a value of the enum. *)
Definition enumName (s : TaskStatus) : string :=
  match s with
  | TODO => "TODO"
  | IN_PROGRESS => "IN_PROGRESS"
  | DONE => "DONE"
  end.

(** [convertStatusToFrontend] *)
Definition convertStatusToFrontend (status : string) : string :=
  if decide (status = "TODO") then "todo"
  else if decide (status = "IN_PROGRESS") then "in-progress"
  else if decide (status = "DONE") then "done"
  else "todo".

End StatusFormat.

(** ** [components/dependency-graph.tsx]: levels and positions *)
Module DependencyGraph.

(** The [levels] map and the [visited] set shared by all calls of
    [calculateLevel]. *)
Record Marks := mkMarks { levels : gmap string nat; visited : gset string }.

Definition setLevel (taskId : string) (level : nat) (s : Marks) : Marks :=
  mkMarks (<[taskId := level]> (levels s)) (visited s).

(** The [task.dependencies.forEach] of [calculateLevel]; the loop variable
    is [maxLevel]. *)
Fixpoint forDependencies (rec : string → Marks → option (nat * Marks))
    (deps : list string) (maxLevel : nat) (s : Marks)
    : option (nat * Marks) :=
  match deps with
  | [] => Some (maxLevel, s)
  | dep :: rest =>
      match rec dep s with
      | None => None
      | Some (depLevel, s') =>
          forDependencies rec rest (Nat.max maxLevel (depLevel + 1)) s'
      end
  end.

Fixpoint calculateLevel (fuel : nat) (taskMap : gmap string Task)
    (taskId : string) (s : Marks) : option (nat * Marks) :=
  match fuel with
  | O => None
  | S fuel' =>
      match levels s !! taskId with
      | Some level => Some (level, s)
      | None =>
          if decide (taskId ∈ visited s) then Some (0%nat, s)
          else
            let s1 := mkMarks (levels s) ({[taskId]} ∪ visited s) in
            match taskMap !! taskId with
            | None => Some (0%nat, setLevel taskId 0 s1)
            | Some task =>
                match dependencies task with
                | [] => Some (0%nat, setLevel taskId 0 s1)
                | deps =>
                    match forDependencies (calculateLevel fuel' taskMap)
                            deps 0 s1 with
                    | None => None
                    | Some (maxLevel, s2) =>
                        Some (maxLevel, setLevel taskId maxLevel s2)
                    end
                end
            end
      end
  end.

(** [tasks.forEach(task => calculateLevel(task.id))] *)
Fixpoint forTasks (fuel : nat) (taskMap : gmap string Task)
    (tasks : list Task) (s : Marks) : option Marks :=
  match tasks with
  | [] => Some s
  | task :: rest =>
      match calculateLevel fuel taskMap (id task) s with
      | None => None
      | Some (_, s') => forTasks fuel taskMap rest s'
      end
  end.

(** The [levels] map once every task has been handled. *)
Definition allLevels (tasks : list Task) : option (gmap string nat) :=
  levels <$> forTasks (S (length tasks)) (Analysis.idMap tasks) tasks
                      (mkMarks ∅ ∅).

(** [levels.get(task.id) || 0] *)
Definition levelOf (lv : gmap string nat) (task : Task) : nat :=
  default 0%nat (lv !! id task).

(** The grouping loop: each task is pushed on the list of its level. *)
Definition tasksByLevel (lv : gmap string nat) (tasks : list Task)
    : gmap nat (list Task) :=
  fold_left
    (λ groups task,
       <[levelOf lv task := default [] (groups !! levelOf lv task) ++ [task]]>
         groups)
    tasks ∅.

(** [Array.prototype.findIndex]: the index of the first element that
    satisfies the test, or -1. *)
Fixpoint findIndex {A} (test : A → bool) (l : list A) : Z :=
  match l with
  | [] => -1
  | x :: rest =>
      if test x then 0
      else let i := findIndex test rest in if i <? 0 then -1 else i + 1
  end.

(** [Array.prototype.indexOf] on ids. *)
Definition indexOf (l : list string) (x : string) : Z :=
  findIndex (λ y, bool_decide (y = x)) l.

Record GraphNode := mkNode {
  node_id : string;
  node_task : Task;
  x : Z;
  y : Z;
  level : nat;
  isCritical : bool
}.

Record GraphEdge := mkEdge { from : string; to : string; critical : bool }.

(** The node of one task. *)
Definition nodeOf (lv : gmap string nat) (groups : gmap nat (list Task))
    (criticalPath : list string) (task : Task) : GraphNode :=
  let level := levelOf lv task in
  let tasksInLevel := default [] (groups !! level) in
  let taskIndex := findIndex (λ t, bool_decide (id t = id task)) tasksInLevel in
  mkNode (id task) task (Z.of_nat level * 250 + 100) (taskIndex * 150 + 100)
         level (bool_decide (id task ∈ criticalPath)).

(** The edges of one task, one for each dependency. *)
Definition edgesOf (criticalPath : list string) (task : Task)
    : list GraphEdge :=
  map (λ dep,
         let depIndex := indexOf criticalPath dep in
         let taskIndex := indexOf criticalPath (id task) in
         mkEdge dep (id task)
                (negb (depIndex =? -1) && negb (taskIndex =? -1)
                 && (taskIndex =? depIndex + 1)))
      (dependencies task).

(** [buildDependencyGraph] *)
Definition buildDependencyGraph (tasks : list Task)
    (criticalPath : list string)
    : option (list GraphNode * list GraphEdge) :=
  match allLevels tasks with
  | None => None
  | Some lv =>
      let groups := tasksByLevel lv tasks in
      Some (map (nodeOf lv groups criticalPath) tasks,
            concat (map (edgesOf criticalPath) tasks))
  end.

End DependencyGraph.

(** ** [components/dependency-manager.tsx]: the list of selected
    dependencies *)
Module DependencyManager.

(** [availableTasks]: the tasks offered for selection. *)
Definition availableTasks (task : Task) (allTasks : list Task)
    (selectedDependencies : list string) : list Task :=
  filter (λ t, id t ≠ id task ∧ id t ∉ selectedDependencies) allTasks.

Definition addDependency (selectedDependencies : list string)
    (taskId : string) : list string :=
  selectedDependencies ++ [taskId].

Definition removeDependency (selectedDependencies : list string)
    (taskId : string) : list string :=
  filter (λ i, i ≠ taskId) selectedDependencies.

(** What the user can do: pick the [n]-th task offered in the select box,
    press "Add First", or press the remove button of a dependency. *)
Inductive Action :=
  | Pick (n : nat)
  | AddFirst
  | Remove (depId : string).

Definition act (task : Task) (allTasks : list Task)
    (selectedDependencies : list string) (a : Action) : list string :=
  match a with
  | Pick n =>
      match availableTasks task allTasks selectedDependencies !! n with
      | Some t => addDependency selectedDependencies (id t)
      | None => selectedDependencies
      end
  | AddFirst =>
      match availableTasks task allTasks selectedDependencies with
      | t :: _ => addDependency selectedDependencies (id t)
      | [] => selectedDependencies
      end
  | Remove depId => removeDependency selectedDependencies depId
  end.

(** The selection after a sequence of actions; it starts as the task's
    current dependencies.  This list is what "Save Dependencies" sends. *)
Definition selection (task : Task) (allTasks : list Task)
    (actions : list Action) : list string :=
  fold_left (act task allTasks) actions (dependencies task).

End DependencyManager.

(** The levels recorded so far are right: a task without dependencies (or
    without a row) has level 0; the level of any other task is one more
    than the largest level of its dependencies, which are all recorded. *)
Definition levelsRight (taskMap : gmap string Task) (lv : gmap string nat)
    : Prop :=
  ∀ taskId l, lv !! taskId = Some l →
    match taskMap !! taskId with
    | None => l = 0%nat
    | Some task =>
        match dependencies task with
        | [] => l = 0%nat
        | deps =>
            (∀ d, d ∈ deps → ∃ ld, lv !! d = Some ld ∧ (ld < l)%nat)
            ∧ ∃ d ld, d ∈ deps ∧ lv !! d = Some ld ∧ l = S ld
        end
    end.

(** What a call of [calculateLevel] for [taskId] guarantees, started with
    the marks [s] and answering [l] with the marks [s']: nothing recorded is
    lost or changed, no task is left half-way, levels are recorded only for
    tasks visited during the call, and [taskId] has the level [l] unless it
    was half-way when the call started. *)
Definition levelCall (taskId : string) (s : DependencyGraph.Marks) (l : nat)
    (s' : DependencyGraph.Marks) : Prop :=
  DependencyGraph.levels s ⊆ DependencyGraph.levels s'
  ∧ DependencyGraph.visited s ⊆ DependencyGraph.visited s'
  ∧ (∀ p, p ∈ DependencyGraph.visited s' →
          DependencyGraph.levels s' !! p = None →
          p ∈ DependencyGraph.visited s ∧ DependencyGraph.levels s !! p = None)
  ∧ (∀ k, is_Some (DependencyGraph.levels s' !! k) →
          is_Some (DependencyGraph.levels s !! k)
          ∨ (k ∈ DependencyGraph.visited s' ∧ k ∉ DependencyGraph.visited s))
  ∧ (DependencyGraph.levels s' !! taskId = Some l
     ∨ (l = 0%nat ∧ taskId ∈ DependencyGraph.visited s
        ∧ DependencyGraph.levels s !! taskId = None)).

(** Each task of the list depends on the task before it (nothing is asked
    of the tasks themselves, which may be missing from the map). *)
Fixpoint linked (taskMap : gmap string Task) (path : list string) : Prop :=
  match path with
  | [] => True
  | a :: rest =>
      match rest with
      | [] => True
      | b :: _ =>
          (∃ t, taskMap !! b = Some t ∧ a ∈ dependencies t)
          ∧ linked taskMap rest
      end
  end.

(** The shape of what a call of [dfs] for [taskId] returns, started with
    the memo [m] and leaving the memo [m']: the path is a chain without
    repetition that ends at [taskId] (or is empty), its tasks have a
    recorded length, and lengths are recorded only for tasks visited
    during the call. *)
Definition pathShape (taskMap : gmap string Task) (taskId : string)
    (m : Analysis.Memo) (path : list string) (m' : Analysis.Memo) : Prop :=
  linked taskMap path
  ∧ (path = [] ∨ last path = Some taskId)
  ∧ NoDup path
  ∧ (∀ x, x ∈ path → is_Some (Analysis.pathLengths m' !! x))
  ∧ Analysis.visited m ⊆ Analysis.visited m'
  ∧ (∀ x, is_Some (Analysis.pathLengths m !! x) →
       is_Some (Analysis.pathLengths m' !! x))
  ∧ (∀ x, is_Some (Analysis.pathLengths m' !! x) →
       is_Some (Analysis.pathLengths m !! x)
       ∨ (x ∈ Analysis.visited m' ∧ x ∉ Analysis.visited m)).

(** ** Tactics *)

(** Case analysis on a lookup in a store that is written out as a sequence
    of inserts. *)
Ltac lookup_cases H :=
  repeat (apply lookup_insert_Some in H as [[<- <-]|[_ H]]);
  [..|by rewrite lookup_empty in H].

Ltac no_dependency H :=
  simpl in H; repeat (apply elem_of_cons in H as [->|H]);
  try (by apply elem_of_nil in H).

(** * Properties *)

(** ** Graphs *)

(** A graph whose edges all go down in some ranking has no cycle. *)
Lemma acyclic_of_rank (db : Store) (rank : string → nat) :
  (∀ a b, depends db a b → (rank b < rank a)%nat) → acyclic db.
Proof.
  intros Hrank t Ht.
  assert (Hlt : ∀ a b, tc (depends db) a b → (rank b < rank a)%nat).
  { induction 1 as [a b Hab | a b c Hab _ IH].
    - by apply Hrank.
    - apply Hrank in Hab. lia. }
  apply Hlt in Ht. lia.
Qed.

(** ** The cycle check of the task update endpoint *)

(** The search starts at a proposed id, and the proposed ids are all in the
    target list: the first call answers [true] at once. *)
Lemma put_check_nonempty (db : Store) (taskId d : string) (ds : list string) :
  TaskRoute.checkCircularDependencies db taskId (d :: ds) = Some true.
Proof.
  unfold TaskRoute.checkCircularDependencies. simpl.
  rewrite decide_False by set_solver.
  rewrite decide_True by set_solver.
  reflexivity.
Qed.

Lemma put_check_empty (db : Store) (taskId : string) :
  TaskRoute.checkCircularDependencies db taskId [] = Some false.
Proof. reflexivity. Qed.

(** [PUT] never runs out of fuel. *)
Lemma put_not_stuck (db : Store) (taskId : string) (body : TaskRoute.Body.t) :
  TaskRoute.PUT db taskId body ≠ Stuck.
Proof.
  unfold TaskRoute.PUT, TaskRoute.update.
  destruct (db !! taskId); [|done].
  case_decide; [done|].
  destruct (TaskRoute.Body.dependencies body) as [[|d ds]|].
  - by destruct (Prisma.allExist db []).
  - by rewrite put_check_nonempty.
  - done.
Qed.

(** Every update that proposes a non-empty dependency list for an existing
    task is refused: as circular, unless the completion gate refuses it
    first. *)
Lemma put_nonempty_rejected (db : Store) (taskId : string)
    (body : TaskRoute.Body.t) (d : string) (ds : list string) :
  TaskRoute.Body.dependencies body = Some (d :: ds) →
  is_Some (db !! taskId) →
  TaskRoute.PUT db taskId body = CircularDependency ∨
  ∃ l, TaskRoute.PUT db taskId body = IncompleteDependencies l.
Proof.
  intros Hd [t Ht]. unfold TaskRoute.PUT. rewrite Ht.
  case_decide; [right; eauto|].
  left. by rewrite Hd, put_check_nonempty.
Qed.

(** C1 (defect).  Tasks [a] and [b] have no dependencies.  The update of
    [a] that proposes the dependency set [{b}] is refused as circular,
    although the graph with that set in place has no cycle. *)
Theorem C1_put_rejects_acyclic_proposal :
  TaskRoute.PUT Sample.independent "a" (TaskRoute.Body.mk None (Some ["b"]))
    = CircularDependency
  ∧ acyclic (<["a" := Prisma.withDependencies Sample.a0 ["b"]]>
               Sample.independent).
Proof.
  split; [by vm_compute|].
  apply (acyclic_of_rank _ (λ x, if decide (x = "a") then 1%nat else 0%nat)).
  intros x y (t & Ht & Hy). unfold Sample.independent in Ht.
  lookup_cases Ht; no_dependency Hy.
  rewrite decide_False by done. rewrite decide_True by done. lia.
Qed.

(** ** The dependencies endpoint and the DAG invariant *)

(** C2 (defect).  Creating task [a] and then adding [a] to its own
    dependencies are both accepted; in the resulting store [a] is reachable
    from itself, so the graph is not a DAG. *)
Theorem C2_accepted_operations_leave_a_cycle :
  runAccepted ∅
    [CreateTask "a" "Research topic" (Some Sample.day) None;
     AddDependencies "a" (Some ["a"])]
    = Some (<["a" := Prisma.withDependencies Sample.a0 ["a"]]> ∅)
  ∧ ¬ acyclic (<["a" := Prisma.withDependencies Sample.a0 ["a"]]> ∅).
Proof.
  split; [by vm_compute|].
  intros Hacyclic. apply (Hacyclic "a"). apply tc_once.
  eexists. split; [apply lookup_insert_eq|]. simpl. set_solver.
Qed.

(** C3 (defect).  On the dependencies endpoint, proposing that task [a]
    depends on [a] is accepted and stored. *)
Theorem C3_dependencies_endpoint_accepts_self_dependency :
  DependenciesRoute.checkCircularDependencies
    (<["a" := Sample.a0]> ∅) "a" ["a"] = Some false
  ∧ DependenciesRoute.POST (<["a" := Sample.a0]> ∅) "a" (Some ["a"])
    = Updated (<["a" := Prisma.withDependencies Sample.a0 ["a"]]> ∅).
Proof. split; by vm_compute. Qed.

(** On the task update endpoint a proposal that contains the task's own id
    is never committed. *)
Lemma put_rejects_self_dependency (db : Store) (taskId : string)
    (body : TaskRoute.Body.t) (ds : list string) :
  TaskRoute.Body.dependencies body = Some ds →
  taskId ∈ ds →
  ∀ db', TaskRoute.PUT db taskId body ≠ Updated db'.
Proof.
  intros Hd Hin db'. destruct ds as [|d ds]; [by apply elem_of_nil in Hin|].
  unfold TaskRoute.PUT. destruct (db !! taskId); [|done].
  case_decide; [done|]. by rewrite Hd, put_check_nonempty.
Qed.

(** ** Critical path *)

(** C7 (defect).  For the chain [c -> b -> a], read in the order [b], [a],
    [c], the critical path returned has the two tasks of [a], [b], while
    [a], [b], [c] is a chain of three tasks. *)
Theorem C7_critical_path_misses_longer_chain :
  acyclic (Analysis.idMap Sample.chain)
  ∧ Analysis.criticalPathIds Sample.chain = Some ["a"; "b"]
  ∧ Analysis.findCriticalPath Sample.chain
    = Some ["Research topic"; "Write report"]
  ∧ isChain (Analysis.idMap Sample.chain) ["a"; "b"; "c"].
Proof.
  split; [|split; [by vm_compute|]; split; [by vm_compute|]].
  - apply (acyclic_of_rank _
      (λ x, if decide (x = "c") then 2%nat
            else if decide (x = "b") then 1%nat else 0%nat)).
    intros x y (t & Ht & Hy). cbn in Ht.
    lookup_cases Ht; no_dependency Hy; repeat case_decide; done || lia.
  - simpl. repeat split; try (by eexists; vm_compute).
    + exists Sample.b1. split; [by vm_compute|]. simpl. set_solver.
    + exists Sample.c1. split; [by vm_compute|]. simpl. set_solver.
Qed.

(** Read newest first, the same chain gives the path of three tasks. *)
Example critical_path_newest_first :
  Analysis.findCriticalPath [Sample.c1; Sample.b1; Sample.a1]
  = Some ["Research topic"; "Write report"; "Make slides"].
Proof. by vm_compute. Qed.

(** ** Status normalisation and the completion gate *)

Lemma convertStatusToEnum_done (s : string) :
  TaskRoute.convertStatusToEnum s = DONE ↔ TaskRoute.toLowerCase s = "done".
Proof.
  unfold TaskRoute.convertStatusToEnum.
  repeat case_decide; split; intros; congruence.
Qed.

Lemma normalizedStatus_done (body : TaskRoute.Body.t) :
  TaskRoute.normalizedStatus body = Some DONE ↔
  ∃ s, TaskRoute.Body.status body = Some s ∧ TaskRoute.toLowerCase s = "done".
Proof.
  unfold TaskRoute.normalizedStatus.
  destruct (TaskRoute.Body.status body) as [s|].
  - case_decide as Hs.
    + split; [done|]. intros (s' & [= <-] & Hl). by subst s.
    + split.
      * intros [= H]. apply convertStatusToEnum_done in H. eauto.
      * intros (s' & [= <-] & H). apply convertStatusToEnum_done in H.
        by rewrite H.
  - split; [done|]. by intros (s' & ? & _).
Qed.

(** The rows the gate lists are exactly the blocking dependencies. *)
Lemma elem_of_incompleteDependencies (db : Store) (task dep : Task) :
  dep ∈ TaskRoute.incompleteDependencies db task ↔ blocks db task dep.
Proof.
  unfold TaskRoute.incompleteDependencies, Prisma.includeDependencies, blocks.
  rewrite list_elem_of_filter, list_elem_of_omap. naive_solver.
Qed.

(** What [PUT] answers when the body proposes no dependency: the field is
    missing, or it is the empty list. *)
Lemma put_without_dependencies (db : Store) (taskId : string)
    (existing : Task) (body : TaskRoute.Body.t) :
  db !! taskId = Some existing →
  (∀ d, TaskRoute.Body.dependencies body ≠ Some d ∨ d = []) →
  (∃ l, TaskRoute.PUT db taskId body = IncompleteDependencies l) ∨
  (∃ db', TaskRoute.PUT db taskId body = Updated db').
Proof.
  intros Ht Hd. unfold TaskRoute.PUT, TaskRoute.update. rewrite Ht.
  case_decide; [eauto|].
  destruct (TaskRoute.Body.dependencies body) as [[|d ds]|]; [eauto| |eauto].
  by destruct (Hd (d :: ds)).
Qed.

(** C5.  A transition to done of an existing task is refused by the
    completion gate exactly when some dependency of the task is not done;
    the refusal lists the id and title of every such dependency, and of no
    other task; a request that only changes the status to done is accepted
    exactly when no dependency blocks it.  A transition to another status
    is never refused by the gate, and is accepted when the request proposes
    no dependency. *)
Theorem C5_completion_gate (db : Store) (taskId : string) (existing : Task)
    (body : TaskRoute.Body.t) :
  db !! taskId = Some existing →
  (TaskRoute.normalizedStatus body = Some DONE →
     ((∃ l, TaskRoute.PUT db taskId body = IncompleteDependencies l)
        ↔ ∃ dep, blocks db existing dep)
     ∧ (∀ l, TaskRoute.PUT db taskId body = IncompleteDependencies l →
          ∀ p, p ∈ l ↔
               ∃ dep, blocks db existing dep ∧ p = (id dep, title dep))
     ∧ ((∀ d, TaskRoute.Body.dependencies body ≠ Some d ∨ d = []) →
          (∃ db', TaskRoute.PUT db taskId body = Updated db')
            ↔ ¬ ∃ dep, blocks db existing dep))
  ∧ (TaskRoute.normalizedStatus body ≠ Some DONE →
     (∀ l, TaskRoute.PUT db taskId body ≠ IncompleteDependencies l)
     ∧ ((∀ d, TaskRoute.Body.dependencies body ≠ Some d ∨ d = []) →
          ∃ db', TaskRoute.PUT db taskId body = Updated db')).
Proof.
  intros Ht.
  assert (Hnil : TaskRoute.incompleteDependencies db existing ≠ [] ↔
                 ∃ dep, blocks db existing dep).
  { setoid_rewrite <- elem_of_incompleteDependencies.
    destruct (TaskRoute.incompleteDependencies db existing) as [|x l].
    - split; [done|]. intros [dep Hdep]. by apply elem_of_nil in Hdep.
    - split; [|done]. intros _. exists x. left. }
  assert (Hgate : ∀ l, TaskRoute.PUT db taskId body = IncompleteDependencies l →
            TaskRoute.normalizedStatus body = Some DONE
            ∧ TaskRoute.incompleteDependencies db existing ≠ []
            ∧ l = map (λ dep, (id dep, title dep))
                      (TaskRoute.incompleteDependencies db existing)).
  { intros l. unfold TaskRoute.PUT, TaskRoute.update. rewrite Ht.
    case_decide as Hc.
    - intros [= <-]. naive_solver.
    - destruct (TaskRoute.Body.dependencies body) as [[|d ds]|];
        [destruct (Prisma.allExist db [])| |]; try done.
      by rewrite put_check_nonempty. }
  split.
  - intros Hdone. split; [|split].
    + split.
      * intros [l Hl]. apply Hnil. by apply Hgate in Hl as (_ & ? & _).
      * intros Hb. apply Hnil in Hb. unfold TaskRoute.PUT. rewrite Ht.
        rewrite decide_True by done. eauto.
    + intros l Hl p. apply Hgate in Hl as (_ & _ & ->).
      rewrite list_elem_of_fmap.
      setoid_rewrite elem_of_incompleteDependencies. naive_solver.
    + intros Hd. split.
      * intros [db' Hdb'] Hb. apply Hnil in Hb.
        unfold TaskRoute.PUT in Hdb'. rewrite Ht in Hdb'.
        by rewrite decide_True in Hdb' by done.
      * intros Hb.
        destruct (put_without_dependencies db taskId existing body Ht Hd)
          as [[l Hl]|?]; [|done].
        exfalso. apply Hb, Hnil. by apply Hgate in Hl as (_ & ? & _).
  - intros Hnot. split.
    + intros l Hl. by apply Hgate in Hl as (? & _).
    + intros Hd.
      destruct (put_without_dependencies db taskId existing body Ht Hd)
        as [[l Hl]|?]; [|done].
      by apply Hgate in Hl as (? & _).
Qed.

(** In the chain [c -> b -> a] nothing is done yet: marking [b] done is
    refused, and the refusal names [a]. *)
Lemma C5_completion_gate_witness :
  ∃ l, TaskRoute.PUT Sample.chainStore "b"
         (TaskRoute.Body.mk (Some "done") None) = IncompleteDependencies l.
Proof.
  destruct (C5_completion_gate Sample.chainStore "b" Sample.b1
              (TaskRoute.Body.mk (Some "done") None) eq_refl) as [Hdone _].
  destruct (Hdone eq_refl) as [[_ Hrefuse] _].
  apply Hrefuse. exists Sample.a1, "a".
  split; [simpl; set_solver|]. split; [reflexivity|discriminate].
Defined.

(** C10, as stated, fails: the status [DONE] is none of the strings
    [todo], [in-progress] and [done], yet it is normalised to [DONE], not to
    [TODO], and the completion gate is evaluated for it. *)
Lemma C10_counterexample :
  ¬ (∀ s : string, s ≠ "todo" → s ≠ "in-progress" → s ≠ "done" →
       TaskRoute.normalizedStatus (TaskRoute.Body.mk (Some s) None)
         = Some TODO)
  ∧ TaskRoute.normalizedStatus (TaskRoute.Body.mk (Some "DONE") None)
    = Some DONE
  ∧ TaskRoute.PUT Sample.chainStore "b" (TaskRoute.Body.mk (Some "DONE") None)
    = IncompleteDependencies [("a", "Research topic")].
Proof.
  split; [|split; by vm_compute].
  intros H. by specialize (H "DONE" ltac:(done) ltac:(done) ltac:(done)).
Qed.

(** C10 (amended).  The comparison ignores case.  A non-empty status whose
    lower-case form is none of [todo], [in-progress], [done] is normalised
    to [TODO], and an accepted request stores [TODO]; no request is refused
    as invalid input; the completion gate refuses only requests whose
    normalised status is [DONE], that is, whose lower-case status is
    [done]. *)
Theorem C10_status_normalisation (db : Store) (taskId : string)
    (body : TaskRoute.Body.t) :
  TaskRoute.PUT db taskId body ≠ InvalidInput
  ∧ (∀ s, TaskRoute.Body.status body = Some s → s ≠ "" →
       TaskRoute.toLowerCase s ≠ "todo" →
       TaskRoute.toLowerCase s ≠ "in-progress" →
       TaskRoute.toLowerCase s ≠ "done" →
       TaskRoute.normalizedStatus body = Some TODO
       ∧ ∀ db', TaskRoute.PUT db taskId body = Updated db' →
           ∃ t, db' !! taskId = Some t ∧ status t = TODO)
  ∧ (∀ l, TaskRoute.PUT db taskId body = IncompleteDependencies l →
       TaskRoute.normalizedStatus body = Some DONE
       ∧ ∃ s, TaskRoute.Body.status body = Some s
              ∧ TaskRoute.toLowerCase s = "done").
Proof.
  split; [|split].
  - unfold TaskRoute.PUT, TaskRoute.update.
    destruct (db !! taskId); [|done]. case_decide; [done|].
    destruct (TaskRoute.Body.dependencies body) as [[|d ds]|];
      [destruct (Prisma.allExist db [])| |]; try done.
    by rewrite put_check_nonempty.
  - intros s Hs Hne H1 H2 H3.
    assert (Hn : TaskRoute.normalizedStatus body = Some TODO).
    { unfold TaskRoute.normalizedStatus, TaskRoute.convertStatusToEnum.
      rewrite Hs. by repeat (rewrite decide_False by done). }
    split; [done|]. intros db'.
    unfold TaskRoute.PUT, TaskRoute.update. rewrite Hn.
    destruct (db !! taskId) as [existing|]; [|done]. case_decide; [done|].
    destruct (TaskRoute.Body.dependencies body) as [[|d ds]|].
    + destruct (Prisma.allExist db []); [|done]. intros [= <-].
      eexists. split; [apply lookup_insert_eq|done].
    + by rewrite put_check_nonempty.
    + intros [= <-]. eexists. split; [apply lookup_insert_eq|done].
  - intros l. unfold TaskRoute.PUT, TaskRoute.update.
    destruct (db !! taskId) as [existing|]; [|done].
    case_decide as Hc.
    + intros _. destruct Hc as [Hc _]. split; [done|].
      by apply normalizedStatus_done.
    + destruct (TaskRoute.Body.dependencies body) as [[|d ds]|];
        [destruct (Prisma.allExist db [])| |]; try done.
      by rewrite put_check_nonempty.
Qed.

(** The status [archived] is stored as [TODO]. *)
Lemma C10_status_normalisation_witness :
  TaskRoute.normalizedStatus (TaskRoute.Body.mk (Some "archived") None)
    = Some TODO.
Proof.
  destruct (C10_status_normalisation Sample.chainStore "b"
              (TaskRoute.Body.mk (Some "archived") None)) as (_ & H & _).
  apply (H "archived"); [reflexivity|discriminate..].
Defined.

(** ** Earliest start dates *)

(** The loop of [calculateEarliestStartDate] computes a maximum: the result
    bounds the start value and every dependency found in the map, and it is
    one of them. *)
Lemma latest_completion_fold (taskMap : gmap string Task) (deps : list string)
    (start : Z) :
  let step := λ (latest : Z) (dep : string),
    match taskMap !! dep with
    | Some dependency =>
        if latest <? Analysis.completionDate dependency
        then Analysis.completionDate dependency else latest
    | None => latest
    end in
  let r := fold_left step deps start in
  start ≤ r
  ∧ (∀ d dep, d ∈ deps → taskMap !! d = Some dep →
       Analysis.completionDate dep ≤ r)
  ∧ (r = start ∨
     ∃ d dep, d ∈ deps ∧ taskMap !! d = Some dep
              ∧ r = Analysis.completionDate dep).
Proof.
  intros step. revert start.
  induction deps as [|x deps IH]; intros start; simpl.
  - split; [lia|]. split; [|by left].
    intros d dep Hd. by apply elem_of_nil in Hd.
  - destruct (IH (step start x)) as (Hle & Hub & Hmax).
    assert (Hstep : start ≤ step start x
                    ∧ (∀ dep, taskMap !! x = Some dep →
                         Analysis.completionDate dep ≤ step start x)
                    ∧ (step start x = start ∨
                       ∃ dep, taskMap !! x = Some dep
                              ∧ step start x = Analysis.completionDate dep)).
    { unfold step. destruct (taskMap !! x) as [dep|].
      - destruct (Z.ltb_spec start (Analysis.completionDate dep)).
        + split; [lia|]. split; [by intros ? [= <-]|]. right. eauto.
        + split; [lia|]. split; [intros ? [= <-]; lia|]. by left.
      - split; [lia|]. split; [done|]. by left. }
    destruct Hstep as (Hs1 & Hs2 & Hs3).
    split; [lia|]. split.
    + intros d dep Hd Hlook. apply elem_of_cons in Hd as [->|Hd].
      * specialize (Hs2 dep Hlook). lia.
      * by apply (Hub d).
    + destruct Hmax as [Hr|(d & dep & Hd & Hlook & Hr)].
      * destruct Hs3 as [Hs3|(dep & Hlook & Hs3)].
        -- left. congruence.
        -- right. exists x, dep. split; [left|]. split; [done|]. congruence.
      * right. exists d, dep. split; [by right|done].
Qed.

(** C6, as stated, fails.  In the chain [c -> b -> a], [a] is due on day 10
    and [b] on day 5: the earliest start computed for [c] is day 5, the due
    date of [b], while the latest completion date over the ancestors of [c]
    is day 10. *)
Lemma C6_counterexample :
  Analysis.calculateEarliestStartDate 0 Sample.c1 (Analysis.idMap Sample.chain)
    = 5 * Sample.day
  ∧ Analysis.calculateEarliestStartDates 0 Sample.chain !! "Make slides"
    = Some (5 * Sample.day)
  ∧ Propagated.earliestStart 0 Sample.chain Sample.c1 = 10 * Sample.day.
Proof. repeat split; by vm_compute. Qed.

(** C6 (amended).  The earliest start of a task without dependencies is
    [now].  Otherwise it is the latest completion date among the task's own
    dependencies, the immediate ones only, and never before the epoch: it is
    not before the completion date of any of them, and it is the completion
    date of one of them or the epoch.  The completion date of a dependency
    is its [completedAt] if it is done and has one, its due date
    otherwise. *)
Theorem C6_earliest_start_immediate_dependencies (now : Z) (task : Task)
    (taskMap : gmap string Task) :
  (dependencies task = [] →
     Analysis.calculateEarliestStartDate now task taskMap = now)
  ∧ (dependencies task ≠ [] →
       0 ≤ Analysis.calculateEarliestStartDate now task taskMap
       ∧ (∀ d dep, d ∈ dependencies task → taskMap !! d = Some dep →
            Analysis.completionDate dep
              ≤ Analysis.calculateEarliestStartDate now task taskMap)
       ∧ (Analysis.calculateEarliestStartDate now task taskMap = 0
          ∨ ∃ d dep, d ∈ dependencies task ∧ taskMap !! d = Some dep
              ∧ Analysis.calculateEarliestStartDate now task taskMap
                = Analysis.completionDate dep))
  ∧ (∀ dep c, status dep = DONE → completedAt dep = Some c →
       Analysis.completionDate dep = c)
  ∧ (∀ dep, status dep ≠ DONE ∨ completedAt dep = None →
       Analysis.completionDate dep = dueDate dep).
Proof.
  unfold Analysis.calculateEarliestStartDate.
  split; [by intros ->|]. split; [|split].
  - intros Hne. destruct (dependencies task) as [|x deps] eqn:E; [done|].
    apply (latest_completion_fold taskMap (x :: deps) 0).
  - intros dep c Hs Hc. unfold Analysis.completionDate. by rewrite Hs, Hc.
  - intros dep. unfold Analysis.completionDate.
    destruct (status dep), (completedAt dep); naive_solver.
Qed.

(** In the chain, the earliest start of [c] is the due date of [b]. *)
Lemma C6_earliest_start_witness :
  Analysis.completionDate Sample.b1
    ≤ Analysis.calculateEarliestStartDate 0 Sample.c1
        (Analysis.idMap Sample.chain).
Proof.
  destruct (C6_earliest_start_immediate_dependencies 0 Sample.c1
              (Analysis.idMap Sample.chain)) as (_ & H & _).
  destruct (H ltac:(discriminate)) as (_ & Hub & _).
  apply (Hub "b"); [simpl; set_solver|reflexivity].
Defined.

(** ** What an accepted update stores *)

Lemma elem_of_connect (old ids : list string) (x : string) :
  x ∈ Prisma.connect old ids ↔ x ∈ old ∨ x ∈ ids.
Proof.
  unfold Prisma.connect. revert old.
  induction ids as [|d ids IH]; intros old; simpl.
  - set_solver.
  - rewrite IH. case_decide; set_solver.
Qed.

Lemma NoDup_connect (old ids : list string) :
  NoDup old → NoDup (Prisma.connect old ids).
Proof.
  unfold Prisma.connect. revert old.
  induction ids as [|d ids IH]; intros old Hold; simpl; [done|].
  apply IH. case_decide; [done|].
  apply NoDup_app. split; [done|]. split; [set_solver|].
  apply NoDup_singleton.
Qed.

(** C4, as stated, fails on the dependencies endpoint.  Task [a] depends on
    [b]; the proposal [{c}] is accepted, and afterwards [a] depends on [b]
    and [c]: the stored set is not the proposed one. *)
Lemma C4_counterexample :
  DependenciesRoute.POST Sample.related "a" (Some ["c"])
    = Updated (<["a" := Prisma.withDependencies Sample.a2 ["b"; "c"]]>
                 Sample.related)
  ∧ "b" ∈ ["b"; "c"] ∧ "b" ∉ ["c"].
Proof. split; [by vm_compute|]. set_solver. Qed.

(** C4 (amended).  An accepted update on the dependencies endpoint stores
    the union of the task's previous dependencies and the proposed ones; an
    accepted update on the task update endpoint that carries a dependency
    list stores exactly the proposed ids.  No id is stored twice. *)
Theorem C4_stored_dependencies_after_update (db db' : Store)
    (taskId : string) :
  (∀ ds, DependenciesRoute.POST db taskId (Some ds) = Updated db' →
     ∃ t t', db !! taskId = Some t ∧ db' !! taskId = Some t'
       ∧ (∀ x, x ∈ dependencies t' ↔ x ∈ dependencies t ∨ x ∈ ds)
       ∧ (NoDup (dependencies t) → NoDup (dependencies t')))
  ∧ (∀ body ds, TaskRoute.Body.dependencies body = Some ds →
     TaskRoute.PUT db taskId body = Updated db' →
     ∃ t', db' !! taskId = Some t'
       ∧ (∀ x, x ∈ dependencies t' ↔ x ∈ ds)
       ∧ NoDup (dependencies t')).
Proof.
  split.
  - intros ds. unfold DependenciesRoute.POST.
    destruct (db !! taskId) as [t|]; [|done].
    destruct (DependenciesRoute.checkCircularDependencies db taskId ds)
      as [[|]|]; try done.
    destruct (Prisma.allExist db ds); [|done]. intros [= <-].
    eexists t, _. split; [done|]. split; [apply lookup_insert_eq|].
    simpl. split; [intros x; apply elem_of_connect|apply NoDup_connect].
  - intros body ds Hd. unfold TaskRoute.PUT, TaskRoute.update. rewrite Hd.
    destruct (db !! taskId) as [t|]; [|done]. case_decide; [done|].
    assert (Hupd : (if Prisma.allExist db ds
              then Updated (<[taskId := Prisma.withDependencies
                     match TaskRoute.normalizedStatus body with
                     | Some s => Prisma.withStatus t s
                     | None => t
                     end (Prisma.connect [] ds)]> db)
              else ServerError) = Updated db' →
            ∃ t', db' !! taskId = Some t'
              ∧ (∀ x, x ∈ dependencies t' ↔ x ∈ ds)
              ∧ NoDup (dependencies t')).
    { destruct (Prisma.allExist db ds); [|done]. intros [= <-].
      eexists. split; [apply lookup_insert_eq|]. simpl. split.
      - intros x. rewrite elem_of_connect. set_solver.
      - apply NoDup_connect, NoDup_nil_2. }
    destruct ds as [|d ds]; [done|]. by rewrite put_check_nonempty.
Qed.

(** Task [a] depends on [b]; after the accepted proposal [{c}] on the
    dependencies endpoint it depends on [b] and on [c]. *)
Lemma C4_stored_dependencies_witness :
  ∃ t t', Sample.related !! "a" = Some t
    ∧ (<["a" := Prisma.withDependencies Sample.a2 ["b"; "c"]]>
         Sample.related) !! "a" = Some t'
    ∧ (∀ x, x ∈ dependencies t' ↔ x ∈ dependencies t ∨ x ∈ ["c"])
    ∧ (NoDup (dependencies t) → NoDup (dependencies t')).
Proof.
  destruct (C4_stored_dependencies_after_update Sample.related
              (<["a" := Prisma.withDependencies Sample.a2 ["b"; "c"]]>
                 Sample.related) "a") as [H _].
  apply (H ["c"]). by vm_compute.
Defined.

(** ** Maps built from entries *)

Section NewMap.
Context {V : Type}.
Implicit Types (entries pre post : list (string * V)) (m : gmap string V).

Let put := λ m (kv : string * V), <[kv.1 := kv.2]> m.

Lemma fold_put_absent entries m k :
  (∀ kv, kv ∈ entries → kv.1 ≠ k) →
  fold_left put entries m !! k = m !! k.
Proof.
  revert m. induction entries as [|kv entries IH]; intros m Hk; [done|].
  simpl. rewrite IH by (intros; apply Hk; by right).
  unfold put. apply lookup_insert_ne, Hk. left.
Qed.

Lemma fold_put_Some entries m k v :
  fold_left put entries m !! k = Some v → (k, v) ∈ entries ∨ m !! k = Some v.
Proof.
  revert m. induction entries as [|[k' v'] entries IH]; intros m; simpl.
  - by right.
  - intros H. apply IH in H as [H|H]; [left; by right|].
    unfold put in H. simpl in H.
    apply lookup_insert_Some in H as [[-> ->]|[_ H]]; [left; left|by right].
Qed.

Lemma fold_put_is_Some entries m k :
  is_Some (m !! k) ∨ k ∈ entries.*1 → is_Some (fold_left put entries m !! k).
Proof.
  revert m. induction entries as [|[k' v'] entries IH]; intros m; simpl.
  - intros [H|H]; [done|by apply elem_of_nil in H].
  - intros [H|H]; apply IH.
    + left. unfold put. simpl. rewrite lookup_insert_is_Some. 
      destruct (decide (k' = k)); [by left|by right].
    + apply elem_of_cons in H as [->|H]; [left|by right].
      unfold put. simpl. rewrite lookup_insert_eq. eauto.
Qed.

(** The last entry for a key is the one the map holds. *)
Lemma newMap_last pre post k v :
  (∀ kv, kv ∈ post → kv.1 ≠ k) →
  Analysis.newMap (pre ++ (k, v) :: post) !! k = Some v.
Proof.
  intros Hpost. unfold Analysis.newMap. rewrite fold_left_app. simpl.
  change (fold_left put post (put (fold_left put pre ∅) (k, v)) !! k = Some v).
  rewrite fold_put_absent by done. apply lookup_insert_eq.
Qed.

Lemma newMap_Some entries k v :
  Analysis.newMap entries !! k = Some v → (k, v) ∈ entries.
Proof.
  intros H. apply fold_put_Some in H as [H|H]; [done|].
  by rewrite lookup_empty in H.
Qed.

Lemma newMap_is_Some entries k :
  k ∈ entries.*1 → is_Some (Analysis.newMap entries !! k).
Proof. intros H. apply fold_put_is_Some. by right. Qed.

Lemma fold_put_size entries m :
  (size (fold_left put entries m) ≤ size m + length entries)%nat.
Proof.
  revert m. induction entries as [|[k v] entries IH]; intros m; simpl.
  - lia.
  - etrans; [apply IH|]. unfold put. simpl.
    destruct (m !! k) eqn:E.
    + rewrite map_size_insert_Some by eauto. lia.
    + rewrite map_size_insert_None by done. lia.
Qed.

Lemma newMap_size entries :
  (size (Analysis.newMap entries) ≤ length entries)%nat.
Proof.
  etrans; [apply fold_put_size|]. by rewrite map_size_empty.
Qed.

End NewMap.

(** ** The maps of the analysis *)

Lemma idMap_Some (tasks : list Task) (taskId : string) (task : Task) :
  Analysis.idMap tasks !! taskId = Some task →
  task ∈ tasks ∧ id task = taskId.
Proof.
  intros H. apply newMap_Some, list_elem_of_fmap in H as (t & [= -> ->] & Ht).
  done.
Qed.

Lemma idMap_is_Some (tasks : list Task) (task : Task) :
  task ∈ tasks → is_Some (Analysis.idMap tasks !! id task).
Proof.
  intros H. apply newMap_is_Some. rewrite <- list_fmap_compose.
  apply list_elem_of_fmap. by exists task.
Qed.

(** The title map holds, for a title, the last task that carries it. *)
Lemma titleMap_last (pre post : list Task) (x : Task) :
  (∀ y, y ∈ post → title y ≠ title x) →
  Analysis.titleMap (pre ++ x :: post) !! title x = Some x.
Proof.
  intros Hpost. unfold Analysis.titleMap. rewrite map_app. simpl.
  apply newMap_last. intros kv Hkv.
  apply list_elem_of_fmap in Hkv as (y & -> & Hy). by apply Hpost.
Qed.

Lemma titleMap_NoDup (tasks : list Task) (task : Task) :
  NoDup (map title tasks) → task ∈ tasks →
  Analysis.titleMap tasks !! title task = Some task.
Proof.
  intros Hnd Hin. apply list_elem_of_split in Hin as (pre & post & ->).
  apply titleMap_last. intros y Hy Heq.
  rewrite map_app in Hnd. apply NoDup_app in Hnd as (_ & _ & Hnd).
  simpl in Hnd. apply NoDup_cons in Hnd as [Hnotin _].
  apply Hnotin. rewrite <- Heq. apply list_elem_of_fmap. by exists y.
Qed.

(** The result object of [calculateEarliestStartDates] is the map built
    from the entries [(title, earliest start)] in the order of [tasks],
    without the tasks titled [__proto__]. *)
Lemma calculateEarliestStartDates_newMap (now : Z) (tasks : list Task) :
  Analysis.calculateEarliestStartDates now tasks
  = Analysis.newMap
      (map (λ task, (title task,
              Analysis.calculateEarliestStartDate now task
                (Analysis.idMap tasks)))
           (filter (λ task, title task ≠ "__proto__") tasks)).
Proof.
  unfold Analysis.calculateEarliestStartDates, Analysis.newMap.
  generalize (Analysis.idMap tasks) as taskMap.
  generalize (∅ : gmap string Z) as m. intros m taskMap. revert m.
  induction tasks as [|t tasks IH]; intros m; [done|]. simpl.
  unfold Analysis.setProperty at 2. case_decide as Htitle.
  - rewrite filter_cons_False by (intros H; by apply H). apply IH.
  - rewrite filter_cons_True by done. simpl. apply IH.
Qed.

(** The result object never has an own property [__proto__]. *)
Lemma calculateEarliestStartDates_proto (now : Z) (tasks : list Task) :
  Analysis.calculateEarliestStartDates now tasks !! "__proto__" = None.
Proof.
  rewrite calculateEarliestStartDates_newMap.
  destruct (Analysis.newMap _ !! "__proto__") as [v|] eqn:Hv; [|done].
  apply newMap_Some, list_elem_of_fmap in Hv as (t & [= Ht _] & Hin).
  apply list_elem_of_filter in Hin as [Hne _]. by destruct Hne.
Qed.

(** The loop of [calculateTotalDuration] adds one contribution per entry of
    the path. *)
Lemma total_duration_fold (now : Z) (taskMap : gmap string Task)
    (path : list string) (start : Z) :
  fold_left
    (λ totalDays entry,
       match taskMap !! entry with
       | Some task => totalDays + Analysis.days now task
       | None => totalDays
       end) path start
  = start + sumZ (map (λ entry, match taskMap !! entry with
                                | Some task => Analysis.days now task
                                | None => 0
                                end) path).
Proof.
  revert start. induction path as [|e path IH]; intros start; simpl; [lia|].
  rewrite IH. destruct (taskMap !! e); lia.
Qed.

Lemma calculateTotalDuration_sum (now : Z) (tasks : list Task)
    (path : list string) :
  Analysis.calculateTotalDuration now tasks path
  = sumZ (map (λ entry, match Analysis.titleMap tasks !! entry with
                        | Some task => Analysis.days now task
                        | None => 0
                        end) path).
Proof.
  unfold Analysis.calculateTotalDuration. destruct path as [|e path]; [done|].
  by rewrite total_duration_fold.
Qed.




(** ** The search of the critical path terminates *)

Lemma unvisited_mono (keys v v' : gset string) :
  v ⊆ v' → (size (keys ∖ v') ≤ size (keys ∖ v))%nat.
Proof. intros H. apply subseteq_size. set_solver. Qed.

Lemma unvisited_less (keys v : gset string) (k : string) :
  k ∈ keys → k ∉ v → (size (keys ∖ ({[k]} ∪ v)) < size (keys ∖ v))%nat.
Proof.
  intros Hk Hv. apply subset_size. apply strict_spec_alt. split.
  - set_solver.
  - intros Heq. assert (k ∈ keys ∖ ({[k]} ∪ v)) by (rewrite Heq; set_solver).
    set_solver.
Qed.

(** One unfolding of [dfs]. *)
Lemma dfs_S (fuel : nat) (taskMap : gmap string Task) (taskId : string)
    (m : Analysis.Memo) :
  Analysis.dfs (S fuel) taskMap taskId m =
  if decide (taskId ∈ Analysis.visited m) then
    Some (if decide (is_Some (Analysis.pathLengths m !! taskId))
          then [taskId] else [], m)
  else
    let m1 := Analysis.mkMemo ({[taskId]} ∪ Analysis.visited m)
                              (Analysis.pathLengths m) in
    match taskMap !! taskId with
    | None => Some ([taskId], Analysis.setLength taskId 1 m1)
    | Some task =>
        match dependencies task with
        | [] => Some ([taskId], Analysis.setLength taskId 1 m1)
        | deps =>
            match Analysis.forDependencies (Analysis.dfs fuel taskMap)
                    deps 0 [] m1 with
            | None => None
            | Some (longestPath, m2) =>
                Some (longestPath ++ [taskId],
                      Analysis.setLength taskId
                        (length (longestPath ++ [taskId])) m2)
            end
        end
    end.
Proof. reflexivity. Qed.

Section CriticalPathSearch.
Variable taskMap : gmap string Task.

(** [D] is a set of ids closed under the dependencies found in the map. *)
Variable D : string → Prop.
Hypothesis D_closed :
  ∀ x t d, taskMap !! x = Some t → d ∈ dependencies t → D d.

Lemma forDependencies_returns (fuel : nat) (deps : list string) :
  (∀ taskId m, D taskId →
     (size (dom taskMap ∖ Analysis.visited m) < fuel)%nat →
     returns D m (Analysis.dfs fuel taskMap taskId m)) →
  ∀ maxLength longestPath m,
    (∀ d, d ∈ deps → D d) → (∀ x, x ∈ longestPath → D x) →
    (size (dom taskMap ∖ Analysis.visited m) < fuel)%nat →
    returns D m (Analysis.forDependencies (Analysis.dfs fuel taskMap)
                 deps maxLength longestPath m).
Proof.
  intros IH. induction deps as [|dep deps IHdeps];
    intros maxLength longestPath m Hdeps Hlongest Hsize; simpl.
  - exists longestPath, m. done.
  - destruct (IH dep m) as (p & m1 & -> & Hsub & Hp);
      [apply Hdeps; left|done|].
    assert (size (dom taskMap ∖ Analysis.visited m1) < fuel)%nat.
    { eapply Nat.le_lt_trans; [by apply unvisited_mono|done]. }
    assert (∀ d, d ∈ deps → D d) by (intros; apply Hdeps; by right).
    destruct (maxLength <? length p)%nat.
    + destruct (IHdeps (length p) p m1) as (p' & m' & -> & Hsub' & Hp');
        try done.
      exists p', m'. split; [done|]. split; [set_solver|done].
    + destruct (IHdeps maxLength longestPath m1)
        as (p' & m' & -> & Hsub' & Hp'); try done.
      exists p', m'. split; [done|]. split; [set_solver|done].
Qed.

Lemma dfs_returns (fuel : nat) :
  ∀ taskId m, D taskId →
    (size (dom taskMap ∖ Analysis.visited m) < fuel)%nat →
    returns D m (Analysis.dfs fuel taskMap taskId m).
Proof.
  induction fuel as [|fuel IH]; intros taskId m HD Hsize; [lia|].
  rewrite dfs_S. cbv zeta. case_decide as Hvisited.
  { eexists _, m. split; [done|]. split; [done|].
    intros x. case_decide; set_solver. }
  assert (Hleaf : returns D m (Some ([taskId], Analysis.setLength taskId 1
            (Analysis.mkMemo ({[taskId]} ∪ Analysis.visited m)
                             (Analysis.pathLengths m))))).
  { eexists _, _. split; [done|]. simpl. split; [set_solver|].
    intros x Hx. by apply list_elem_of_singleton in Hx as ->. }
  destruct (taskMap !! taskId) as [task|] eqn:Htask; [|done].
  destruct (dependencies task) as [|dep deps] eqn:Hdeps; [done|].
  destruct (forDependencies_returns fuel (dep :: deps) IH 0%nat []
              (Analysis.mkMemo ({[taskId]} ∪ Analysis.visited m)
                               (Analysis.pathLengths m)))
    as (p & m' & Hloop & Hsub & Hp).
  - intros d Hd. apply (D_closed taskId task); [done|by rewrite Hdeps].
  - intros x Hx. by apply elem_of_nil in Hx.
  - simpl. assert (taskId ∈ dom taskMap) by (apply elem_of_dom; eauto).
    pose proof (unvisited_less (dom taskMap) (Analysis.visited m) taskId
                  ltac:(done) Hvisited).
    lia.
  - rewrite Hloop. eexists _, _. split; [done|]. simpl in *.
    split; [set_solver|]. intros x Hx.
    apply elem_of_app in Hx as [Hx|Hx]; [by apply Hp|].
    by apply list_elem_of_singleton in Hx as ->.
Qed.

Lemma forTasks_returns (fuel : nat) (tasks : list Task) :
  (size (dom taskMap) < fuel)%nat →
  ∀ maxLength criticalPath m,
    (∀ t, t ∈ tasks → D (id t)) → (∀ x, x ∈ criticalPath → D x) →
    ∃ path, Analysis.forTasks fuel taskMap tasks maxLength criticalPath m
              = Some path
            ∧ ∀ x, x ∈ path → D x.
Proof.
  intros Hfuel. induction tasks as [|t tasks IH];
    intros maxLength criticalPath m Htasks Hcp; simpl.
  - by exists criticalPath.
  - assert (∀ t', t' ∈ tasks → D (id t')) by (intros; apply Htasks; by right).
    case_decide; [by apply IH|].
    destruct (dfs_returns fuel (id t) m) as (p & m' & -> & _ & Hp).
    + apply Htasks. left.
    + eapply Nat.le_lt_trans; [|done]. apply subseteq_size. set_solver.
    + destruct (maxLength <? length p)%nat; by apply IH.
Qed.

End CriticalPathSearch.

(** [findCriticalPath] returns, whatever the tasks are. *)
Lemma criticalPathIds_total (tasks : list Task) :
  ∃ ids, Analysis.criticalPathIds tasks = Some ids.
Proof.
  destruct (forTasks_returns (Analysis.idMap tasks) (λ _, True)
              ltac:(done) (S (length tasks)) tasks) with
    (maxLength := 0%nat) (criticalPath := @nil string)
    (m := Analysis.mkMemo ∅ ∅) as (path & Hpath & _); try done.
  - rewrite size_dom. pose proof (newMap_size (map (λ t, (id t, t)) tasks)).
    rewrite length_map in *. unfold Analysis.idMap. lia.
  - by exists path.
Qed.

(** When every dependency is a task of the input, so is every id of the
    critical path. *)
Lemma criticalPathIds_tasks (tasks : list Task) :
  (∀ t d, t ∈ tasks → d ∈ dependencies t → ∃ t', t' ∈ tasks ∧ id t' = d) →
  ∃ ids, Analysis.criticalPathIds tasks = Some ids
         ∧ ∀ x, x ∈ ids → is_Some (Analysis.idMap tasks !! x).
Proof.
  intros Hclosed.
  destruct (forTasks_returns (Analysis.idMap tasks)
              (λ x, is_Some (Analysis.idMap tasks !! x))) with
    (fuel := S (length tasks)) (tasks := tasks)
    (maxLength := 0%nat) (criticalPath := @nil string)
    (m := Analysis.mkMemo ∅ ∅) as (path & Hpath & Hin).
  - intros x t d Ht Hd. apply idMap_Some in Ht as [Ht _].
    destruct (Hclosed t d Ht Hd) as (t' & Ht' & <-). by apply idMap_is_Some.
  - rewrite size_dom. pose proof (newMap_size (map (λ t, (id t, t)) tasks)).
    rewrite length_map in *. unfold Analysis.idMap. lia.
  - intros t Ht. by apply idMap_is_Some.
  - intros x Hx. by apply elem_of_nil in Hx.
  - by exists path.
Qed.

(** [ceilDays] rounds up to whole days. *)
Lemma ceilDays_spec (ms : Z) :
  Analysis.msPerDay * (Analysis.ceilDays ms - 1) < ms
    ≤ Analysis.msPerDay * Analysis.ceilDays ms.
Proof.
  unfold Analysis.ceilDays.
  assert (Hd : 0 < Analysis.msPerDay) by (by vm_compute).
  pose proof (Z.mul_div_le (- ms) _ Hd).
  pose proof (Z.mul_succ_div_gt (- ms) _ Hd).
  lia.
Qed.

(** C8.  When the titles are pairwise distinct (and every dependency is one
    of the tasks, as in the rows read from the database), the analysis
    returns, and its total duration is the sum, over the tasks on the
    critical path, of the larger of 1 and the number of days from [now] to
    the due date, rounded up; so each task counts for at least one day.  An
    empty critical path has total duration 0. *)
Theorem C8_total_duration (now : Z) (tasks : list Task) :
  NoDup (map title tasks) →
  (∀ t d, t ∈ tasks → d ∈ dependencies t → ∃ t', t' ∈ tasks ∧ id t' = d) →
  ∃ res onPath,
    Analysis.GET now tasks = Some res
    ∧ (∀ t, t ∈ onPath → t ∈ tasks)
    ∧ Analysis.criticalPathIds tasks = Some (map id onPath)
    ∧ Analysis.criticalPath res = map title onPath
    ∧ Analysis.totalDuration res
      = sumZ (map (λ t, Z.max 1 (Analysis.ceilDays (dueDate t - now))) onPath)
    ∧ (∀ t, 1 ≤ Z.max 1 (Analysis.ceilDays (dueDate t - now))
            ∧ Analysis.msPerDay * (Analysis.ceilDays (dueDate t - now) - 1)
              < dueDate t - now
              ≤ Analysis.msPerDay * Analysis.ceilDays (dueDate t - now))
    ∧ (Analysis.criticalPath res = [] → Analysis.totalDuration res = 0).
Proof.
  intros Htitles Hclosed.
  destruct (criticalPathIds_tasks tasks Hclosed) as (ids & Hids & Hin).
  assert (Hon : ∃ onPath, (∀ t, t ∈ onPath → t ∈ tasks)
            ∧ ids = map id onPath
            ∧ map (Analysis.titleOf (Analysis.idMap tasks)) ids
              = map title onPath).
  { clear Hids. induction ids as [|i ids IH].
    - exists []. split; [|done]. intros t Ht. by apply elem_of_nil in Ht.
    - destruct IH as (onPath & H1 & H2 & H3); [intros; apply Hin; by right|].
      destruct (Hin i) as [t Ht]; [left|].
      destruct (idMap_Some _ _ _ Ht) as [Htin Hid].
      exists (t :: onPath). split; [|split].
      + intros t' Ht'. apply elem_of_cons in Ht' as [->|Ht']; auto.
      + simpl. by f_equal.
      + simpl. f_equal; [|done]. unfold Analysis.titleOf. by rewrite Ht. }
  destruct Hon as (onPath & Hon1 & -> & Hon3).
  unfold Analysis.GET, Analysis.findCriticalPath. rewrite Hids. simpl.
  eexists _, onPath. split; [done|]. simpl.
  split; [done|]. split; [done|]. split; [done|]. split; [|split].
  - rewrite calculateTotalDuration_sum, Hon3. f_equal.
    rewrite map_map. apply map_ext_in. intros t Ht.
    apply list_elem_of_In in Ht. by rewrite titleMap_NoDup by auto.
  - intros t. split; [lia|apply ceilDays_spec].
  - rewrite Hon3. by intros ->.
Qed.

(** The chain [c -> b -> a] read in the order [c], [b], [a], one day after
    the due date of [a]: the critical path has three tasks. *)
Lemma C8_total_duration_witness :
  ∃ res onPath,
    Analysis.GET (2 * Sample.day) [Sample.c1; Sample.b1; Sample.a0]
      = Some res
    ∧ Analysis.criticalPath res = map title onPath
    ∧ Analysis.totalDuration res
      = sumZ (map (λ t, Z.max 1
                     (Analysis.ceilDays (dueDate t - 2 * Sample.day))) onPath).
Proof.
  destruct (C8_total_duration (2 * Sample.day)
              [Sample.c1; Sample.b1; Sample.a0])
    as (res & onPath & H1 & _ & _ & H2 & H3 & _).
  - simpl. repeat (apply NoDup_cons; split; [set_solver|]). apply NoDup_nil_2.
  - intros t d Ht Hd.
    repeat (apply elem_of_cons in Ht as [->|Ht]); simpl in Hd.
    + apply list_elem_of_singleton in Hd as ->.
      exists Sample.b1. split; [set_solver|done].
    + apply list_elem_of_singleton in Hd as ->.
      exists Sample.a0. split; [set_solver|done].
    + by apply elem_of_nil in Hd.
    + by apply elem_of_nil in Ht.
  - by exists res, onPath.
Defined.

(** ** The cycle check of the dependencies endpoint terminates *)

Section CycleCheck.
Variable db : Store.
Variable originalTaskId : string.

Lemma check_forDependencies_returns (fuel : nat) (taskId : string)
    (deps : list string) :
  (∀ d s, (size (dom db ∖ DependenciesRoute.visited s) < fuel)%nat →
     ∃ b s', DependenciesRoute.hasCircularDependency fuel db d s
               originalTaskId = Some (b, s')
             ∧ DependenciesRoute.visited s ⊆ DependenciesRoute.visited s') →
  ∀ s, (size (dom db ∖ DependenciesRoute.visited s) < fuel)%nat →
    ∃ b s', DependenciesRoute.forDependencies
              (λ d s', DependenciesRoute.hasCircularDependency fuel db d s'
                         originalTaskId)
              taskId originalTaskId deps s = Some (b, s')
            ∧ DependenciesRoute.visited s ⊆ DependenciesRoute.visited s'.
Proof.
  intros IH. induction deps as [|dep deps IHdeps]; intros s Hsize; simpl.
  - by eexists _, _.
  - case_decide; [by eexists _, _|].
    destruct (IH dep s Hsize) as (b & s1 & -> & Hsub).
    destruct b; [by eexists _, _|].
    destruct (IHdeps s1) as (b & s' & -> & Hsub').
    + eapply Nat.le_lt_trans; [by apply unvisited_mono|done].
    + eexists _, _. split; [done|]. set_solver.
Qed.

Lemma hasCircularDependency_returns (fuel : nat) :
  ∀ taskId s, (size (dom db ∖ DependenciesRoute.visited s) < fuel)%nat →
    ∃ b s', DependenciesRoute.hasCircularDependency fuel db taskId s
              originalTaskId = Some (b, s')
            ∧ DependenciesRoute.visited s ⊆ DependenciesRoute.visited s'.
Proof.
  induction fuel as [|fuel IH]; intros taskId s Hsize; [lia|].
  simpl. case_decide; [by eexists _, _|].
  case_decide as Hvisited; [by eexists _, _|].
  destruct (db !! taskId) as [task|] eqn:Htask.
  - destruct (check_forDependencies_returns fuel taskId (dependencies task)
                IH (DependenciesRoute.mkSets
                      ({[taskId]} ∪ DependenciesRoute.visited s)
                      ({[taskId]} ∪ DependenciesRoute.recursionStack s)))
      as (b & s' & -> & Hsub).
    + simpl. assert (taskId ∈ dom db) by (apply elem_of_dom; eauto).
      pose proof (unvisited_less (dom db) (DependenciesRoute.visited s)
                    taskId ltac:(done) Hvisited).
      lia.
    + eexists _, _. split; [done|]. simpl in Hsub. set_solver.
  - eexists _, _. split; [done|]. simpl. set_solver.
Qed.

Lemma forNewDependencies_returns (fuel : nat) (newDependencies : list string) :
  (size (dom db) < fuel)%nat →
  ∀ s, ∃ b, DependenciesRoute.forNewDependencies fuel db originalTaskId
              newDependencies s = Some b.
Proof.
  intros Hfuel. induction newDependencies as [|d ds IH]; intros s; simpl.
  - by eexists.
  - destruct (hasCircularDependency_returns fuel d s) as (b & s' & -> & _).
    + eapply Nat.le_lt_trans; [|done]. apply subseteq_size. set_solver.
    + destruct b; [by eexists|apply IH].
Qed.

End CycleCheck.

(** The cycle check returns for every store and every proposal. *)
Lemma checkCircularDependencies_total (db : Store) (taskId : string)
    (newDependencies : list string) :
  ∃ b, DependenciesRoute.checkCircularDependencies db taskId newDependencies
       = Some b.
Proof.
  apply forNewDependencies_returns. rewrite size_dom. lia.
Qed.

(** [POST] never runs out of fuel. *)
Lemma post_not_stuck (db : Store) (taskId : string)
    (body : option (list string)) :
  DependenciesRoute.POST db taskId body ≠ Stuck.
Proof.
  unfold DependenciesRoute.POST. destruct body as [deps|]; [|done].
  destruct (db !! taskId); [|done].
  destruct (checkCircularDependencies_total db taskId deps) as [b ->].
  destruct b; [done|]. by destruct (Prisma.allExist db deps).
Qed.

(** ** What the cycle check of the dependencies endpoint does establish *)

Section CycleCheckSound.
Variable db : Store.
Variable originalTaskId : string.

Lemma check_forDependencies_sound (fuel : nat) (taskId : string)
    (deps : list string) :
  (∀ d s s', DependenciesRoute.hasCircularDependency fuel db d s
               originalTaskId = Some (false, s') →
     explored db originalTaskId s →
     explored db originalTaskId s'
     ∧ DependenciesRoute.visited s ⊆ DependenciesRoute.visited s'
     ∧ d ∈ DependenciesRoute.visited s'
     ∧ DependenciesRoute.recursionStack s'
       = DependenciesRoute.recursionStack s) →
  ∀ s s', DependenciesRoute.forDependencies
            (λ d s', DependenciesRoute.hasCircularDependency fuel db d s'
                       originalTaskId)
            taskId originalTaskId deps s = Some (false, s') →
    explored db originalTaskId s →
    explored db originalTaskId
      (DependenciesRoute.mkSets (DependenciesRoute.visited s')
                                (DependenciesRoute.recursionStack s))
    ∧ DependenciesRoute.visited s ⊆ DependenciesRoute.visited s'
    ∧ (∀ y, y ∈ deps → y ≠ originalTaskId ∧ y ∈ DependenciesRoute.visited s')
    ∧ DependenciesRoute.recursionStack s'
      = DependenciesRoute.recursionStack s ∖ {[taskId]}.
Proof.
  intros IH. induction deps as [|dep deps IHdeps]; intros s s'; simpl.
  - intros [= <-] Hs. destruct s as [v st]. simpl.
    split; [done|]. split; [done|]. split; [|done].
    intros y Hy. by apply elem_of_nil in Hy.
  - case_decide as Hdep; [done|].
    destruct (DependenciesRoute.hasCircularDependency fuel db dep s
                originalTaskId) as [[[|] s1]|] eqn:Hrec; try done.
    intros Hloop Hs.
    destruct (IH dep s s1 Hrec Hs) as (Hs1 & Hsub & Hin & Hstack).
    destruct (IHdeps s1 s' Hloop Hs1) as (Hs' & Hsub' & Hdeps & Hstack').
    rewrite Hstack in Hs', Hstack'.
    split; [done|]. split; [set_solver|]. split; [|done].
    intros y Hy. apply elem_of_cons in Hy as [->|Hy]; [|by apply Hdeps].
    split; [done|set_solver].
Qed.

Lemma hasCircularDependency_sound (fuel : nat) :
  ∀ taskId s s',
    DependenciesRoute.hasCircularDependency fuel db taskId s originalTaskId
      = Some (false, s') →
    explored db originalTaskId s →
    explored db originalTaskId s'
    ∧ DependenciesRoute.visited s ⊆ DependenciesRoute.visited s'
    ∧ taskId ∈ DependenciesRoute.visited s'
    ∧ DependenciesRoute.recursionStack s' = DependenciesRoute.recursionStack s.
Proof.
  induction fuel as [|fuel IH]; intros taskId s s'; [done|].
  simpl. case_decide as Hstack; [done|].
  case_decide as Hvisited; [by intros [= <-]|].
  intros Hrun Hs.
  assert (Hs1 : explored db originalTaskId
            (DependenciesRoute.mkSets
               ({[taskId]} ∪ DependenciesRoute.visited s)
               ({[taskId]} ∪ DependenciesRoute.recursionStack s))).
  { intros x y Hx Hnot Hxy. simpl in *.
    destruct (Hs x y) as [? ?]; [set_solver..|done|]. split; [done|set_solver]. }
  destruct (db !! taskId) as [task|] eqn:Htask.
  - destruct (check_forDependencies_sound fuel taskId (dependencies task)
                IH _ _ Hrun Hs1) as (Hs' & Hsub & Hdeps & Hstack').
    simpl in *. split; [|split; [set_solver|split; [set_solver|set_solver]]].
    intros x y Hx Hnot Hxy.
    destruct (decide (x = taskId)) as [->|Hne].
    + destruct Hxy as (t & Ht & Hy). rewrite Htask in Ht.
      injection Ht as <-. by apply Hdeps.
    + apply (Hs' x y); simpl; [done|set_solver|done].
  - injection Hrun as <-. simpl.
    split; [|split; [set_solver|split; [set_solver|set_solver]]].
    intros x y Hx Hnot Hxy. simpl in *.
    destruct (decide (x = taskId)) as [->|Hne].
    + destruct Hxy as (t & Ht & _). by rewrite Htask in Ht.
    + destruct (Hs x y) as [? ?]; [set_solver..|done|].
      split; [done|set_solver].
Qed.

Lemma forNewDependencies_sound (fuel : nat) (newDependencies : list string) :
  ∀ s, DependenciesRoute.forNewDependencies fuel db originalTaskId
         newDependencies s = Some false →
    explored db originalTaskId s →
    DependenciesRoute.recursionStack s = ∅ →
    ∃ s', explored db originalTaskId s'
          ∧ DependenciesRoute.recursionStack s' = ∅
          ∧ DependenciesRoute.visited s ⊆ DependenciesRoute.visited s'
          ∧ ∀ d, d ∈ newDependencies → d ∈ DependenciesRoute.visited s'.
Proof.
  induction newDependencies as [|d ds IH]; intros s; simpl.
  - intros _ Hs Hstack. exists s. split; [done|]. split; [done|].
    split; [done|]. intros d Hd. by apply elem_of_nil in Hd.
  - destruct (DependenciesRoute.hasCircularDependency fuel db d s
                originalTaskId) as [[[|] s1]|] eqn:Hrec; try done.
    intros Hloop Hs Hstack.
    destruct (hasCircularDependency_sound fuel d s s1 Hrec Hs)
      as (Hs1 & Hsub & Hin & Hstack1).
    rewrite Hstack in Hstack1.
    destruct (IH s1 Hloop Hs1 Hstack1) as (s' & Hs' & Hstack' & Hsub' & Hds).
    exists s'. split; [done|]. split; [done|]. split; [set_solver|].
    intros d' Hd'. apply elem_of_cons in Hd' as [->|Hd']; [set_solver|].
    by apply Hds.
Qed.

(** A set of tasks closed under the dependency edges, none of which leads
    to [originalTaskId], contains no task that reaches it. *)
Lemma explored_unreachable (s : DependenciesRoute.Sets) (x y : string) :
  explored db originalTaskId s →
  DependenciesRoute.recursionStack s = ∅ →
  tc (depends db) x y →
  x ∈ DependenciesRoute.visited s →
  y ≠ originalTaskId ∧ y ∈ DependenciesRoute.visited s.
Proof.
  intros Hs Hstack. induction 1 as [x y Hxy|x y z Hxy _ IH]; intros Hx.
  - apply (Hs x y); [done|set_solver|done].
  - apply IH. apply (Hs x y); [done|set_solver|done].
Qed.

(** When the check answers [false], no proposed dependency reaches the task
    through one or more edges of the stored graph. *)
Lemma checkCircularDependencies_sound (newDependencies : list string) :
  DependenciesRoute.checkCircularDependencies db originalTaskId
    newDependencies = Some false →
  ∀ d, d ∈ newDependencies → ¬ tc (depends db) d originalTaskId.
Proof.
  intros Hcheck d Hd Hreach.
  destruct (forNewDependencies_sound _ _ _ Hcheck)
    as (s' & Hs' & Hstack & _ & Hin); [|done|].
  { intros x y Hx. simpl in Hx. set_solver. }
  by destruct (explored_unreachable s' d originalTaskId Hs' Hstack Hreach
                 (Hin d Hd)).
Qed.

End CycleCheckSound.

(** ** Operations that keep the graph a DAG *)

Lemma allExist_spec (db : Store) (ids : list string) :
  Prisma.allExist db ids = true ↔ ∀ d, d ∈ ids → is_Some (db !! d).
Proof.
  unfold Prisma.allExist. induction ids as [|d ids IH]; simpl.
  - split; [|done]. intros _ d Hd. by apply elem_of_nil in Hd.
  - rewrite andb_true_iff, IH, bool_decide_eq_true. split.
    + intros [Hd Hids] d' Hd'. apply elem_of_cons in Hd' as [->|Hd']; auto.
    + intros H. split; [apply H; left|]. intros d' Hd'. apply H. by right.
Qed.

(** Removing edges keeps a DAG a DAG. *)
Lemma acyclic_fewer_edges (db db' : Store) :
  (∀ a b, depends db' a b → depends db a b) → acyclic db → acyclic db'.
Proof.
  intros Hsub Hacyclic t Ht. apply (Hacyclic t).
  clear Hacyclic. revert Ht. generalize t at 2 4 as u. intros u.
  induction 1 as [x y Hxy|x y z Hxy _ IH].
  - apply tc_once. by apply Hsub.
  - eapply tc_l; [by apply Hsub|done].
Qed.

(** Adding edges from [k] to tasks that do not reach [k] keeps a DAG a
    DAG. *)
Lemma acyclic_more_edges (db db' : Store) (k : string) (ds : list string) :
  (∀ a b, depends db' a b → depends db a b ∨ (a = k ∧ b ∈ ds)) →
  (∀ d, d ∈ ds → ¬ rtc (depends db) d k) →
  acyclic db → acyclic db'.
Proof.
  intros Hedges Hds Hacyclic.
  assert (Hpath : ∀ x y, tc (depends db') x y →
            tc (depends db) x y
            ∨ (rtc (depends db) x k ∧ ∃ d, d ∈ ds ∧ rtc (depends db) d y)).
  { induction 1 as [x y Hxy|x y z Hxy _ IH].
    - destruct (Hedges x y Hxy) as [H|[-> H]]; [left; by apply tc_once|].
      right. split; [done|]. by exists y.
    - destruct (Hedges x y Hxy) as [H|[-> H]].
      + destruct IH as [IH|[IH1 IH2]]; [left; by eapply tc_l|].
        right. split; [by eapply rtc_l|done].
      + right. split; [done|]. destruct IH as [IH|[_ IH]]; [|done].
        exists y. split; [done|]. by apply tc_rtc. }
  intros t Ht. destruct (Hpath t t Ht) as [H|(H1 & d & Hd & H2)].
  - by apply (Hacyclic t).
  - apply (Hds d Hd). by etrans.
Qed.

(** The last edge of a path. *)
Lemma tc_last_edge (db : Store) (x z : string) :
  tc (depends db) x z → ∃ y, depends db y z.
Proof. induction 1; eauto. Qed.

Lemma post_dependencies_preserves (db db' : Store) (taskId : string)
    (deps : list string) :
  wellFormed db → acyclic db → taskId ∉ deps →
  DependenciesRoute.POST db taskId (Some deps) = Updated db' →
  wellFormed db' ∧ acyclic db'.
Proof.
  intros Hwf Hacyclic Hself. unfold DependenciesRoute.POST.
  destruct (db !! taskId) as [task|] eqn:Htask; [|done].
  destruct (DependenciesRoute.checkCircularDependencies db taskId deps)
    as [[|]|] eqn:Hcheck; try done.
  destruct (Prisma.allExist db deps) eqn:Hexist; [|done]. intros [= <-].
  pose proof (proj1 (allExist_spec _ _) Hexist) as Hall.
  assert (Hedges : ∀ a b,
    depends (<[taskId := Prisma.withDependencies task
                 (Prisma.connect (dependencies task) deps)]> db) a b →
    depends db a b ∨ (a = taskId ∧ b ∈ deps)).
  { intros a b (t & Ht & Hb).
    apply lookup_insert_Some in Ht as [[<- <-]|[Hne Ht]].
    - simpl in Hb. apply elem_of_connect in Hb as [Hb|Hb]; [left|by right].
      by exists task.
    - left. by exists t. }
  split.
  - intros x t d Ht Hd. rewrite lookup_insert_is_Some'.
    destruct (Hedges x d) as [(t' & Ht' & Hd')|[_ Hd']]; [by exists t| |].
    + right. by apply (Hwf x t').
    + right. by apply Hall.
  - apply (acyclic_more_edges db _ taskId deps Hedges); [|done].
    intros d Hd Hreach. apply rtc_tc in Hreach as [->|Hreach]; [done|].
    by apply (checkCircularDependencies_sound db taskId deps Hcheck d).
Qed.

Lemma create_preserves (db db' : Store) (newId title : string)
    (due : option Z) (deps : option (list string)) :
  wellFormed db → acyclic db →
  TasksRoute.POST db newId title due deps = Updated db' →
  wellFormed db' ∧ acyclic db'.
Proof.
  intros Hwf Hacyclic. unfold TasksRoute.POST.
  destruct due as [dueDate|]; [|done]. case_decide; [done|].
  destruct (db !! newId) eqn:Hfresh; [done|].
  destruct (Prisma.allExist db (default [] deps)) eqn:Hexist; [|done].
  intros [= <-]. pose proof (proj1 (allExist_spec _ _) Hexist) as Hall.
  assert (Hedges : ∀ a b,
    depends (<[newId := mkTask newId title TODO dueDate None
                 (Prisma.connect [] (default [] deps))]> db) a b →
    depends db a b ∨ (a = newId ∧ b ∈ default [] deps)).
  { intros a b (t & Ht & Hb).
    apply lookup_insert_Some in Ht as [[<- <-]|[Hne Ht]].
    - simpl in Hb. apply elem_of_connect in Hb as [Hb|Hb]; [|by right].
      by apply elem_of_nil in Hb.
    - left. by exists t. }
  split.
  - intros x t d Ht Hd. rewrite lookup_insert_is_Some'.
    destruct (Hedges x d) as [(t' & Ht' & Hd')|[_ Hd']]; [by exists t| |].
    + right. by apply (Hwf x t').
    + right. by apply Hall.
  - apply (acyclic_more_edges db _ newId (default [] deps) Hedges); [|done].
    intros d Hd Hreach. apply rtc_tc in Hreach as [->|Hreach].
    + apply Hall in Hd as [? Hd]. congruence.
    + apply tc_last_edge in Hreach as (y & t & Ht & Hy).
      destruct (Hwf y t newId Ht Hy) as [? ?]. congruence.
Qed.

Lemma delete_preserves (db db' : Store) (taskId : string) :
  wellFormed db → acyclic db →
  TaskRoute.DELETE db taskId = Updated db' →
  wellFormed db' ∧ acyclic db'.
Proof.
  intros Hwf Hacyclic. unfold TaskRoute.DELETE, Prisma.deleteTask.
  destruct (db !! taskId) as [row|]; [|done]. intros [= <-].
  assert (Hedges : ∀ a b,
    depends ((λ t, Prisma.withDependencies t
                (filter (λ d, d ≠ taskId) (dependencies t)))
             <$> delete taskId db) a b →
    depends db a b ∧ a ≠ taskId ∧ b ≠ taskId).
  { intros a b (t1 & Ht & Hb).
    apply lookup_fmap_Some in Ht as (t0 & <- & Ht0).
    apply lookup_delete_Some in Ht0 as [Hne Ht0]. simpl in Hb.
    apply list_elem_of_filter in Hb as [Hb1 Hb2].
    split; [by exists t0|done]. }
  split.
  - intros x t d Ht Hd.
    destruct (Hedges x d) as ((t' & Ht' & Hd') & _ & Hne); [by exists t|].
    destruct (Hwf x t' d Ht' Hd') as [td Htd].
    rewrite lookup_fmap, lookup_delete_ne, Htd by done. by eexists.
  - apply (acyclic_fewer_edges db); [|done]. intros a b H.
    by apply Hedges in H as [? _].
Qed.

Lemma put_preserves (db db' : Store) (taskId : string)
    (body : TaskRoute.Body.t) :
  wellFormed db → acyclic db →
  TaskRoute.PUT db taskId body = Updated db' →
  wellFormed db' ∧ acyclic db'.
Proof.
  intros Hwf Hacyclic. unfold TaskRoute.PUT, TaskRoute.update.
  destruct (db !! taskId) as [existing|] eqn:Htask; [|done].
  case_decide; [done|].
  set (t1 := match TaskRoute.normalizedStatus body with
             | Some s => Prisma.withStatus existing s
             | None => existing
             end).
  assert (Ht1 : dependencies t1 = dependencies existing).
  { unfold t1. by destruct (TaskRoute.normalizedStatus body). }
  assert (Hkeep : ∀ t', dependencies t' ⊆ dependencies existing →
            wellFormed (<[taskId := t']> db) ∧ acyclic (<[taskId := t']> db)).
  { intros t' Hsub.
    assert (Hedges : ∀ a b, depends (<[taskId := t']> db) a b →
                            depends db a b).
    { intros a b (t & Ht & Hb).
      apply lookup_insert_Some in Ht as [[<- <-]|[Hne Ht]].
      - exists existing. split; [done|]. by apply Hsub.
      - by exists t. }
    split; [|by apply (acyclic_fewer_edges db)].
    intros x t d Ht Hd. rewrite lookup_insert_is_Some'. right.
    destruct (Hedges x d) as (t0 & Ht0 & Hd0); [by exists t|].
    by apply (Hwf x t0). }
  destruct (TaskRoute.Body.dependencies body) as [[|d ds]|].
  - destruct (Prisma.allExist db []); [|done]. intros [= <-].
    apply Hkeep. simpl. set_solver.
  - by rewrite put_check_nonempty.
  - intros [= <-]. apply Hkeep. by rewrite Ht1.
Qed.

(** Starting from a well-formed DAG, every sequence of accepted operations
    in which no task is proposed as its own dependency on the dependencies
    endpoint ends in a well-formed DAG. *)
Lemma accepted_operations_preserve_dag (ops : list Operation) :
  ∀ db db', wellFormed db → acyclic db → Forall selfFree ops →
    runAccepted db ops = Some db' → wellFormed db' ∧ acyclic db'.
Proof.
  induction ops as [|op ops IH]; intros db db' Hwf Hacyclic Hfree; simpl.
  - by intros [= <-].
  - apply Forall_cons in Hfree as [Hop Hops].
    destruct (perform db op) as [db1| | | | | |] eqn:Hperform; try done.
    intros Hrun.
    assert (wellFormed db1 ∧ acyclic db1) as [Hwf1 Hacyclic1].
    { destruct op as [newId title due deps|taskId [deps|]|taskId body|taskId];
        simpl in Hperform, Hop.
      - by eapply create_preserves.
      - by eapply post_dependencies_preserves.
      - done.
      - by eapply put_preserves.
      - by eapply delete_preserves. }
    by apply (IH db1).
Qed.

(** * Further properties *)

(** ** The cycle check of the dependencies endpoint is exact on a DAG *)

Section CycleCheckComplete.
Variable db : Store.
Variable originalTaskId : string.

(** A call that answers [false] leaves the recursion stack as it found
    it. *)
Lemma check_false_restores_stack (fuel : nat) :
  ∀ taskId s s',
    DependenciesRoute.hasCircularDependency fuel db taskId s originalTaskId
      = Some (false, s') →
    DependenciesRoute.recursionStack s' = DependenciesRoute.recursionStack s.
Proof.
  induction fuel as [|fuel IH]; intros taskId s s'; [done|].
  simpl. case_decide as Hstack; [done|].
  case_decide; [by intros [= <-]|].
  destruct (db !! taskId) as [task|]; [|intros [= <-]; simpl; set_solver].
  assert (Hloop : ∀ deps s1 s2,
    DependenciesRoute.forDependencies
      (λ d s', DependenciesRoute.hasCircularDependency fuel db d s'
                 originalTaskId)
      taskId originalTaskId deps s1 = Some (false, s2) →
    DependenciesRoute.recursionStack s2
    = DependenciesRoute.recursionStack s1 ∖ {[taskId]}).
  { induction deps as [|dep deps IHdeps]; intros s1 s2; simpl.
    - by intros [= <-].
    - case_decide; [done|].
      destruct (DependenciesRoute.hasCircularDependency fuel db dep s1
                  originalTaskId) as [[[|] s3]|] eqn:Hrec; try done.
      intros H2. apply IHdeps in H2. apply IH in Hrec. by rewrite H2, Hrec. }
  intros Hrun. apply Hloop in Hrun. rewrite Hrun. simpl. set_solver.
Qed.

(** A call that answers [true] has found a path to the task of the check,
    or has run into a cycle: the tasks on the recursion stack all lead to
    the task being visited. *)
Lemma check_true_path_or_cycle (fuel : nat) :
  ∀ taskId s s',
    DependenciesRoute.hasCircularDependency fuel db taskId s originalTaskId
      = Some (true, s') →
    (∀ y, y ∈ DependenciesRoute.recursionStack s →
          tc (depends db) y taskId) →
    tc (depends db) taskId originalTaskId ∨ ∃ c, tc (depends db) c c.
Proof.
  induction fuel as [|fuel IH]; intros taskId s s'; [done|].
  simpl. case_decide as Hstack.
  { intros _ Hanc. right. exists taskId. by apply Hanc. }
  case_decide; [done|].
  destruct (db !! taskId) as [task|] eqn:Htask; [|done].
  intros Hrun Hanc.
  assert (Hloop : ∀ deps s1 s2,
    DependenciesRoute.forDependencies
      (λ d s', DependenciesRoute.hasCircularDependency fuel db d s'
                 originalTaskId)
      taskId originalTaskId deps s1 = Some (true, s2) →
    (∀ d, d ∈ deps → depends db taskId d) →
    (∀ y, y ∈ DependenciesRoute.recursionStack s1 →
          y = taskId ∨ tc (depends db) y taskId) →
    tc (depends db) taskId originalTaskId ∨ ∃ c, tc (depends db) c c).
  { induction deps as [|dep deps IHdeps]; intros s1 s2; simpl; [done|].
    intros Hdeps Hedges Hs1.
    assert (Hedge : depends db taskId dep) by (apply Hedges; left).
    case_decide as Hdep.
    { left. apply tc_once. by rewrite <- Hdep. }
    destruct (DependenciesRoute.hasCircularDependency fuel db dep s1
                originalTaskId) as [[[|] s3]|] eqn:Hrec; try done.
    - destruct (IH dep s1 s3 Hrec) as [Hpath|Hcycle]; [|left|by right].
      + intros y Hy. destruct (Hs1 y Hy) as [->|Hy'].
        * by apply tc_once.
        * by eapply tc_r.
      + by eapply tc_l.
    - apply (IHdeps s3 s2 Hdeps).
      + intros d Hd. apply Hedges. by right.
      + intros y Hy. apply Hs1.
        by rewrite <- (check_false_restores_stack fuel dep s1 s3 Hrec). }
  apply (Hloop _ _ _ Hrun).
  - intros d Hd. by exists task.
  - simpl. intros y Hy. apply elem_of_union in Hy as [Hy|Hy].
    + left. by apply elem_of_singleton in Hy.
    + right. by apply Hanc.
Qed.

Lemma forNewDependencies_true (fuel : nat) (newDependencies : list string) :
  ∀ s, DependenciesRoute.forNewDependencies fuel db originalTaskId
         newDependencies s = Some true →
    DependenciesRoute.recursionStack s = ∅ →
    (∃ d, d ∈ newDependencies ∧ tc (depends db) d originalTaskId)
    ∨ ∃ c, tc (depends db) c c.
Proof.
  induction newDependencies as [|d ds IH]; intros s; simpl; [done|].
  destruct (DependenciesRoute.hasCircularDependency fuel db d s
              originalTaskId) as [[[|] s1]|] eqn:Hrec; try done.
  - intros _ Hstack.
    destruct (check_true_path_or_cycle fuel d s s1 Hrec) as [Hpath|Hcycle].
    + intros y Hy. rewrite Hstack in Hy. set_solver.
    + left. exists d. split; [left|done].
    + by right.
  - intros Hrest Hstack.
    destruct (IH s1 Hrest) as [(d' & Hd' & Hpath)|Hcycle].
    + by rewrite (check_false_restores_stack fuel d s s1 Hrec).
    + left. exists d'. split; [by right|done].
    + by right.
Qed.

(** On a DAG, the check answers [true] exactly when one of the proposed
    dependencies already depends on the task, directly or through a chain. *)
Lemma checkCircularDependencies_exact (newDependencies : list string) :
  acyclic db →
  DependenciesRoute.checkCircularDependencies db originalTaskId
    newDependencies = Some true
  ↔ ∃ d, d ∈ newDependencies ∧ tc (depends db) d originalTaskId.
Proof.
  intros Hacyclic. split.
  - intros Hcheck.
    destruct (forNewDependencies_true _ _ _ Hcheck) as [?|[c Hc]];
      [done|done|]. by destruct (Hacyclic c).
  - intros (d & Hd & Hpath).
    destruct (checkCircularDependencies_total db originalTaskId
                newDependencies) as [[|] Hb]; [done|].
    by destruct (checkCircularDependencies_sound db originalTaskId
                   newDependencies Hb d Hd).
Qed.

End CycleCheckComplete.

(** ** The dependencies endpoint on a DAG *)

(** A path stays a path when edges are added. *)
Lemma tc_more_edges (db db' : Store) (x y : string) :
  (∀ a b, depends db a b → depends db' a b) →
  tc (depends db) x y → tc (depends db') x y.
Proof.
  intros Hsub. induction 1 as [a b Hab|a b c Hab _ IH].
  - apply tc_once. by apply Hsub.
  - eapply tc_l; [by apply Hsub|done].
Qed.

(** The edges of the store after [connect]: those of the store before, and
    those from the task to the proposed dependencies. *)
Lemma connect_edges (db : Store) (taskId : string) (task : Task)
    (deps : list string) (a b : string) :
  db !! taskId = Some task →
  depends (<[taskId := Prisma.withDependencies task
               (Prisma.connect (dependencies task) deps)]> db) a b
  ↔ depends db a b ∨ (a = taskId ∧ b ∈ deps).
Proof.
  intros Htask. split.
  - intros (t & Ht & Hb).
    apply lookup_insert_Some in Ht as [[<- <-]|[Hne Ht]].
    + simpl in Hb. apply elem_of_connect in Hb as [Hb|Hb]; [left|by right].
      by exists task.
    + left. by exists t.
  - intros [(t & Ht & Hb)|[-> Hb]].
    + destruct (decide (a = taskId)) as [->|Hne].
      * eexists. split; [apply lookup_insert_eq|]. simpl.
        apply elem_of_connect. left. congruence.
      * exists t. by rewrite lookup_insert_ne.
    + eexists. split; [apply lookup_insert_eq|]. simpl.
      apply elem_of_connect. by right.
Qed.

(** X4.  For a task of a DAG and a proposal that does not contain the task
    itself, the dependencies endpoint refuses the proposal as circular
    exactly when adding the proposed dependencies would create a cycle. *)
Theorem post_rejects_exactly_cycles (db : Store) (taskId : string)
    (task : Task) (deps : list string) :
  db !! taskId = Some task → acyclic db → taskId ∉ deps →
  DependenciesRoute.POST db taskId (Some deps) = CircularDependency
  ↔ ¬ acyclic (<[taskId := Prisma.withDependencies task
                   (Prisma.connect (dependencies task) deps)]> db).
Proof.
  intros Htask Hacyclic Hself. unfold DependenciesRoute.POST. rewrite Htask.
  destruct (checkCircularDependencies_total db taskId deps) as [b Hb].
  rewrite Hb. destruct b.
  - split; [intros _|done].
    apply checkCircularDependencies_exact in Hb as (d & Hd & Hpath); [|done].
    intros Hafter. apply (Hafter taskId). eapply tc_l.
    + apply (connect_edges db taskId task deps); [done|]. by right.
    + eapply tc_more_edges; [|done]. intros a b Hab.
      apply (connect_edges db taskId task deps); [done|]. by left.
  - split; [by destruct (Prisma.allExist db deps)|].
    intros Hcycle. exfalso. apply Hcycle.
    apply (acyclic_more_edges db _ taskId deps); [| |done].
    + intros a b Hab. by apply (connect_edges db taskId task deps).
    + intros d Hd Hreach. apply rtc_tc in Hreach as [->|Hreach]; [done|].
      by apply (checkCircularDependencies_sound db taskId deps Hb d).
Qed.

(** Two tasks without dependencies, and the proposal [{b}] for [a]. *)
Lemma post_rejects_exactly_cycles_witness :
  DependenciesRoute.POST Sample.independent "a" (Some ["b"])
    = CircularDependency
  ↔ ¬ acyclic (<["a" := Prisma.withDependencies Sample.a0
                   (Prisma.connect (dependencies Sample.a0) ["b"])]>
                 Sample.independent).
Proof.
  apply (post_rejects_exactly_cycles Sample.independent "a" Sample.a0 ["b"]);
    [reflexivity| |set_solver].
  apply (acyclic_of_rank _ (λ _, 0%nat)).
  intros x y (t & Ht & Hy). unfold Sample.independent in Ht.
  lookup_cases Ht; no_dependency Hy.
Defined.

(** Connecting ids that are all related already changes nothing. *)
Lemma connect_absorb (old ids : list string) :
  (∀ d, d ∈ ids → d ∈ old) → Prisma.connect old ids = old.
Proof.
  unfold Prisma.connect. induction ids as [|d ids IH]; intros Hin; [done|].
  simpl. rewrite decide_True by (apply Hin; left).
  apply IH. intros d' Hd'. apply Hin. by right.
Qed.

(** [connect] appends: the old list is a prefix of the new one, and what is
    appended comes from [ids]. *)
Lemma connect_appends (old ids : list string) :
  ∃ added, Prisma.connect old ids = old ++ added ∧ ∀ d, d ∈ added → d ∈ ids.
Proof.
  unfold Prisma.connect. revert old.
  induction ids as [|d ids IH]; intros old; simpl.
  - exists []. split; [by rewrite app_nil_r|]. intros d Hd.
    by apply elem_of_nil in Hd.
  - case_decide.
    + destruct (IH old) as (added & -> & Hadded).
      exists added. split; [done|]. intros d' Hd'. right. by apply Hadded.
    + destruct (IH (old ++ [d])) as (added & -> & Hadded).
      exists (d :: added). split; [by rewrite <- app_assoc|].
      intros d' Hd'. apply elem_of_cons in Hd' as [->|Hd']; [left|].
      right. by apply Hadded.
Qed.

Lemma withDependencies_same (t : Task) :
  Prisma.withDependencies t (dependencies t) = t.
Proof. by destruct t. Qed.

(** X6.  On a DAG, proposing the same dependencies a second time is
    accepted again and leaves the store exactly as the first proposal left
    it (the proposal does not contain the task itself). *)
Theorem post_dependencies_idempotent (db db1 : Store) (taskId : string)
    (deps : list string) :
  acyclic db → taskId ∉ deps →
  DependenciesRoute.POST db taskId (Some deps) = Updated db1 →
  DependenciesRoute.POST db1 taskId (Some deps) = Updated db1.
Proof.
  intros Hacyclic Hself Hfirst.
  assert (Hfirst' := Hfirst). unfold DependenciesRoute.POST in Hfirst'.
  destruct (db !! taskId) as [task|] eqn:Htask; [|done].
  destruct (DependenciesRoute.checkCircularDependencies db taskId deps)
    as [[|]|] eqn:Hcheck; try done.
  destruct (Prisma.allExist db deps) eqn:Hexist; [|done].
  injection Hfirst' as <-.
  set (t1 := Prisma.withDependencies task
               (Prisma.connect (dependencies task) deps)).
  assert (Hacyclic1 : acyclic (<[taskId := t1]> db)).
  { apply (acyclic_more_edges db _ taskId deps); [| |done].
    - intros a b Hab. by apply (connect_edges db taskId task deps).
    - intros d Hd Hreach. apply rtc_tc in Hreach as [->|Hreach]; [done|].
      by apply (checkCircularDependencies_sound db taskId deps Hcheck d). }
  unfold DependenciesRoute.POST. rewrite lookup_insert_eq.
  destruct (checkCircularDependencies_total (<[taskId := t1]> db) taskId deps)
    as [[|] Hb]; rewrite Hb.
  - apply checkCircularDependencies_exact in Hb as (d & Hd & Hpath); [|done].
    destruct (Hacyclic1 taskId). eapply tc_l; [|done].
    apply (connect_edges db taskId task deps); [done|]. by right.
  - assert (Prisma.allExist (<[taskId := t1]> db) deps = true) as ->.
    { apply allExist_spec. intros d Hd. apply lookup_insert_is_Some'. right.
      by apply (proj1 (allExist_spec db deps) Hexist). }
    f_equal. rewrite connect_absorb.
    + by rewrite withDependencies_same, insert_insert_eq.
    + intros d Hd. simpl. apply elem_of_connect. by right.
Qed.

(** Task [a] depends on [b]; adding [c] twice. *)
Lemma post_dependencies_idempotent_witness :
  DependenciesRoute.POST
    (<["a" := Prisma.withDependencies Sample.a2 ["b"; "c"]]> Sample.related)
    "a" (Some ["c"])
  = Updated (<["a" := Prisma.withDependencies Sample.a2 ["b"; "c"]]>
               Sample.related).
Proof.
  apply (post_dependencies_idempotent Sample.related); [|set_solver|].
  - apply (acyclic_of_rank _ (λ x, if decide (x = "a") then 1%nat else 0%nat)).
    intros x y (t & Ht & Hy). unfold Sample.related in Ht.
    lookup_cases Ht; no_dependency Hy.
    rewrite decide_False by done. rewrite decide_True by done. lia.
  - by vm_compute.
Defined.

Lemma filter_keeps_all {A} (P : A → Prop) `{∀ x, Decision (P x)}
    (l : list A) :
  (∀ x, x ∈ l → P x) → filter P l = l.
Proof.
  induction l as [|x l IH]; intros Hall; [done|].
  rewrite filter_cons_True by (apply Hall; left).
  f_equal. apply IH. intros y Hy. apply Hall. by right.
Qed.

Lemma filter_keeps_none {A} (P : A → Prop) `{∀ x, Decision (P x)}
    (l : list A) :
  (∀ x, x ∈ l → ¬ P x) → filter P l = [].
Proof.
  induction l as [|x l IH]; intros Hall; [done|].
  rewrite filter_cons_False by (apply Hall; left).
  apply IH. intros y Hy. apply Hall. by right.
Qed.

(** ** Removing dependencies *)

Lemma elem_of_disconnect (old ids : list string) (x : string) :
  x ∈ DependenciesRemoval.disconnect old ids ↔ x ∈ old ∧ x ∉ ids.
Proof.
  unfold DependenciesRemoval.disconnect. rewrite list_elem_of_filter.
  naive_solver.
Qed.

(** X7.  An accepted removal stores the task's previous dependencies
    without the listed ids, leaves every other task as it was, and keeps a
    well-formed DAG a well-formed DAG.  A removal for an unknown task is not
    answered with "not found" but with a server error. *)
Theorem delete_dependencies_removes (db : Store) (taskId : string)
    (deps : list string) :
  (db !! taskId = None →
     DependenciesRemoval.DELETE db taskId (Some deps) = ServerError)
  ∧ ∀ db', DependenciesRemoval.DELETE db taskId (Some deps) = Updated db' →
      (∃ task task', db !! taskId = Some task ∧ db' !! taskId = Some task'
         ∧ ∀ x, x ∈ dependencies task' ↔ x ∈ dependencies task ∧ x ∉ deps)
      ∧ (∀ other, other ≠ taskId → db' !! other = db !! other)
      ∧ (wellFormed db → wellFormed db')
      ∧ (acyclic db → acyclic db').
Proof.
  unfold DependenciesRemoval.DELETE. split; [by intros ->|].
  intros db'. destruct (db !! taskId) as [task|] eqn:Htask; [|done].
  intros [= <-].
  assert (Hedges : ∀ a b,
    depends (<[taskId := Prisma.withDependencies task
        (DependenciesRemoval.disconnect (dependencies task) deps)]> db) a b →
    depends db a b).
  { intros a b (t & Ht & Hb).
    apply lookup_insert_Some in Ht as [[<- <-]|[Hne Ht]].
    - simpl in Hb. apply elem_of_disconnect in Hb as [Hb _]. by exists task.
    - by exists t. }
  split; [|split; [|split]].
  - eexists task, _. split; [done|]. split; [apply lookup_insert_eq|].
    intros x. simpl. apply elem_of_disconnect.
  - intros other Hne. by rewrite lookup_insert_ne.
  - intros Hwf x t d Ht Hd. apply lookup_insert_is_Some'. right.
    destruct (Hedges x d) as (t0 & Ht0 & Hd0); [by exists t|].
    by apply (Hwf x t0).
  - by apply acyclic_fewer_edges.
Qed.

(** Removing [b] from the dependencies of [a]. *)
Lemma delete_dependencies_removes_witness :
  ∃ task task', Sample.related !! "a" = Some task
    ∧ (<["a" := Sample.a0]> Sample.related) !! "a" = Some task'
    ∧ ∀ x, x ∈ dependencies task' ↔ x ∈ dependencies task ∧ x ∉ ["b"].
Proof.
  destruct (delete_dependencies_removes Sample.related "a" ["b"])
    as [_ H].
  destruct (H (<["a" := Sample.a0]> Sample.related)) as [H1 _];
    [by vm_compute|done].
Defined.

(** X8.  Adding dependencies that the task did not have and then removing
    the same ids gives back the store as it was before. *)
Theorem post_then_delete_dependencies (db db1 : Store) (taskId : string)
    (task : Task) (deps : list string) :
  db !! taskId = Some task →
  (∀ d, d ∈ deps → d ∉ dependencies task) →
  DependenciesRoute.POST db taskId (Some deps) = Updated db1 →
  DependenciesRemoval.DELETE db1 taskId (Some deps) = Updated db.
Proof.
  intros Htask Hnew. unfold DependenciesRoute.POST. rewrite Htask.
  destruct (DependenciesRoute.checkCircularDependencies db taskId deps)
    as [[|]|]; try done.
  destruct (Prisma.allExist db deps); [|done]. intros [= <-].
  unfold DependenciesRemoval.DELETE. rewrite lookup_insert_eq. f_equal.
  rewrite insert_insert_eq. simpl.
  destruct (connect_appends (dependencies task) deps) as (added & -> & Hadded).
  unfold DependenciesRemoval.disconnect. rewrite filter_app.
  assert (filter (λ d, d ∉ deps) (dependencies task) = dependencies task) as ->.
  { apply filter_keeps_all. intros d Hd Hin. by apply (Hnew d). }
  assert (filter (λ d, d ∉ deps) added = []) as ->.
  { apply filter_keeps_none. intros d Hd Hnot. apply Hnot. by apply Hadded. }
  rewrite app_nil_r. unfold Prisma.withDependencies. simpl.
  apply insert_id. rewrite Htask. by destruct task.
Qed.

(** Adding [c] to the dependencies of [a] and removing it again. *)
Lemma post_then_delete_dependencies_witness :
  DependenciesRemoval.DELETE
    (<["a" := Prisma.withDependencies Sample.a2 ["b"; "c"]]> Sample.related)
    "a" (Some ["c"])
  = Updated Sample.related.
Proof.
  apply (post_then_delete_dependencies Sample.related _ "a" Sample.a2 ["c"]);
    [reflexivity| |by vm_compute].
  intros d Hd. apply list_elem_of_singleton in Hd as ->. simpl. set_solver.
Defined.

(** ** The cycle check on every store *)

(** X1.  The cycle check of the dependencies endpoint returns an answer for
    every store, cyclic or not, and every proposal: each task is expanded at
    most once, so the nesting of the search never exceeds the number of
    tasks; hence the endpoint always answers. *)
Theorem dependencies_check_terminates (db : Store) (taskId : string)
    (deps : list string) :
  (∃ b, DependenciesRoute.checkCircularDependencies db taskId deps = Some b)
  ∧ ∀ body, DependenciesRoute.POST db taskId body ≠ Stuck.
Proof.
  split; [apply checkCircularDependencies_total|]. intros body.
  apply post_not_stuck.
Qed.

(** X2.  Whatever the store, when the check answers [false] none of the
    proposed dependencies reaches the task along one or more stored
    edges. *)
Theorem dependencies_check_false_no_path (db : Store) (taskId : string)
    (deps : list string) (d : string) :
  DependenciesRoute.checkCircularDependencies db taskId deps = Some false →
  d ∈ deps → ¬ tc (depends db) d taskId.
Proof. intros Hcheck Hd. by eapply checkCircularDependencies_sound. Qed.

(** In the chain [c -> b -> a], [a] does not reach [c]. *)
Lemma dependencies_check_false_no_path_witness :
  ¬ tc (depends Sample.chainStore) "a" "c".
Proof.
  apply (dependencies_check_false_no_path Sample.chainStore "c" ["a"] "a");
    [by vm_compute|set_solver].
Defined.

(** X3.  On a DAG the check answers [true] exactly when one of the proposed
    dependencies already depends on the task, directly or through a chain:
    it neither misses such a dependency nor refuses a proposal without
    one. *)
Theorem dependencies_check_exact_on_dag (db : Store) (taskId : string)
    (deps : list string) :
  acyclic db →
  DependenciesRoute.checkCircularDependencies db taskId deps = Some true
  ↔ ∃ d, d ∈ deps ∧ tc (depends db) d taskId.
Proof. apply checkCircularDependencies_exact. Qed.

Lemma chainStore_acyclic : acyclic Sample.chainStore.
Proof.
  apply (acyclic_of_rank _
    (λ x, if decide (x = "c") then 2%nat
          else if decide (x = "b") then 1%nat else 0%nat)).
  intros x y (t & Ht & Hy). unfold Sample.chainStore in Ht.
  lookup_cases Ht; no_dependency Hy; repeat case_decide; done || lia.
Qed.

(** In the chain [c -> b -> a], proposing [c] as a dependency of [a] is
    answered [true]: [c] depends on [a] through [b]. *)
Lemma dependencies_check_exact_on_dag_witness :
  ∃ d, d ∈ ["c"] ∧ tc (depends Sample.chainStore) d "a".
Proof.
  apply (dependencies_check_exact_on_dag Sample.chainStore "a" ["c"]).
  - apply chainStore_acyclic.
  - by vm_compute.
Defined.

(** X5.  Starting from a well-formed DAG, every sequence of accepted
    operations (creations, additions of dependencies, task updates,
    deletions) in which no task is proposed as its own dependency ends in a
    well-formed DAG. *)
Theorem dag_kept_by_accepted_operations (ops : list Operation)
    (db db' : Store) :
  wellFormed db → acyclic db → Forall selfFree ops →
  runAccepted db ops = Some db' → wellFormed db' ∧ acyclic db'.
Proof. apply accepted_operations_preserve_dag. Qed.

Lemma empty_store_dag : wellFormed (∅ : Store) ∧ acyclic (∅ : Store).
Proof.
  split.
  - intros x t d Ht. by rewrite lookup_empty in Ht.
  - apply (acyclic_of_rank _ (λ _, 0%nat)).
    intros a b (t & Ht & _). by rewrite lookup_empty in Ht.
Qed.

(** Creating [a], creating [b] that depends on [a], adding nothing to [a],
    and deleting [a]. *)
Lemma dag_kept_by_accepted_operations_witness :
  wellFormed (<["b" := Sample.b0]> ∅) ∧ acyclic (<["b" := Sample.b0]> ∅).
Proof.
  apply (dag_kept_by_accepted_operations
           [CreateTask "a" "Research topic" (Some Sample.day) None;
            CreateTask "b" "Write report" (Some (5 * Sample.day)) (Some ["a"]);
            AddDependencies "a" (Some []);
            DeleteTask "a"] ∅).
  - apply empty_store_dag.
  - apply empty_store_dag.
  - repeat constructor. simpl. set_solver.
  - by vm_compute.
Defined.

(** ** Deleting and creating tasks *)

(** X9.  Deleting a task removes its row and removes its id from the
    dependencies of every other task, whose other dependencies stay as they
    were; a well-formed store stays well-formed (no dangling dependency is
    left) and a DAG stays a DAG.  Deleting an unknown task is answered with
    "not found". *)
Theorem delete_task_cascades (db : Store) (taskId : string) :
  (db !! taskId = None → TaskRoute.DELETE db taskId = NotFound)
  ∧ ∀ db', TaskRoute.DELETE db taskId = Updated db' →
      db' !! taskId = None
      ∧ (∀ x t, db' !! x = Some t → taskId ∉ dependencies t)
      ∧ (∀ x t, x ≠ taskId → db !! x = Some t →
           ∃ t', db' !! x = Some t'
             ∧ title t' = title t ∧ status t' = status t
             ∧ ∀ d, d ∈ dependencies t' ↔ d ∈ dependencies t ∧ d ≠ taskId)
      ∧ (wellFormed db → wellFormed db')
      ∧ (acyclic db → acyclic db').
Proof.
  unfold TaskRoute.DELETE. split; [by intros ->|].
  intros db'. destruct (db !! taskId) as [row|]; [|done]. intros [= <-].
  unfold Prisma.deleteTask.
  assert (Hedges : ∀ a b,
    depends ((λ t, Prisma.withDependencies t
                (filter (λ d, d ≠ taskId) (dependencies t)))
             <$> delete taskId db) a b →
    depends db a b ∧ a ≠ taskId ∧ b ≠ taskId).
  { intros a b (t1 & Ht & Hb).
    apply lookup_fmap_Some in Ht as (t0 & <- & Ht0).
    apply lookup_delete_Some in Ht0 as [Hne Ht0]. simpl in Hb.
    apply list_elem_of_filter in Hb as [Hb1 Hb2].
    split; [by exists t0|done]. }
  split; [|split; [|split; [|split]]].
  - by rewrite lookup_fmap, lookup_delete_eq.
  - intros x t Ht Hin. destruct (Hedges x taskId) as (_ & _ & Hne); [|done].
    by exists t.
  - intros x t Hne Ht. eexists.
    rewrite lookup_fmap, lookup_delete_ne, Ht by done.
    split; [done|]. simpl. split; [done|]. split; [done|].
    intros d. rewrite list_elem_of_filter. naive_solver.
  - intros Hwf x t d Ht Hd.
    destruct (Hedges x d) as ((t' & Ht' & Hd') & _ & Hne); [by exists t|].
    destruct (Hwf x t' d Ht' Hd') as [td Htd].
    rewrite lookup_fmap, lookup_delete_ne, Htd by done. by eexists.
  - apply acyclic_fewer_edges. intros a b H. by apply Hedges in H as [? _].
Qed.

(** Deleting [b], on which [a] depends. *)
Lemma delete_task_cascades_witness :
  (<["a" := Sample.a0]> (<["c" := Sample.c0]> ∅) : Store) !! "b" = None.
Proof.
  destruct (delete_task_cascades Sample.related "b") as [_ H].
  destruct (H (<["a" := Sample.a0]> (<["c" := Sample.c0]> ∅))) as [H1 _];
    [by vm_compute|done].
Defined.

(** X10.  An accepted creation stores a new row under a key that was free,
    with status [TODO] and exactly the listed dependencies, all of which
    exist; it leaves the other rows as they were and keeps a well-formed DAG
    a well-formed DAG, although no cycle check is made.  A creation that
    lists an unknown dependency stores nothing. *)
Theorem create_task_safe (db : Store) (newId name : string)
    (due : option Z) (deps : option (list string)) :
  ((∃ d, d ∈ default [] deps ∧ db !! d = None) →
     ∀ db', TasksRoute.POST db newId name due deps ≠ Updated db')
  ∧ ∀ db', TasksRoute.POST db newId name due deps = Updated db' →
      db !! newId = None
      ∧ (∃ t, db' !! newId = Some t ∧ status t = TODO ∧ title t = name
           ∧ (∀ d, d ∈ dependencies t ↔ d ∈ default [] deps)
           ∧ ∀ d, d ∈ dependencies t → is_Some (db !! d))
      ∧ (∀ other, other ≠ newId → db' !! other = db !! other)
      ∧ (wellFormed db → acyclic db → wellFormed db' ∧ acyclic db').
Proof.
  split.
  - intros (d & Hd & Hnone) db'. unfold TasksRoute.POST.
    destruct due; [|done]. case_decide; [done|].
    destruct (db !! newId); [done|].
    destruct (Prisma.allExist db (default [] deps)) eqn:Hexist; [|done].
    destruct (proj1 (allExist_spec _ _) Hexist d Hd) as [? ?]. congruence.
  - intros db' Hcreate. split; [|split; [|split]].
    + unfold TasksRoute.POST in Hcreate.
      destruct due; [|done]. case_decide; [done|].
      by destruct (db !! newId).
    + unfold TasksRoute.POST in Hcreate.
      destruct due as [dueDate|]; [|done]. case_decide; [done|].
      destruct (db !! newId); [done|].
      destruct (Prisma.allExist db (default [] deps)) eqn:Hexist; [|done].
      injection Hcreate as <-. eexists. split; [apply lookup_insert_eq|].
      simpl. split; [done|]. split; [done|].
      assert (Hdeps : ∀ d, d ∈ Prisma.connect [] (default [] deps)
                           ↔ d ∈ default [] deps).
      { intros d. rewrite elem_of_connect. set_solver. }
      split; [done|]. intros d Hd. apply Hdeps in Hd.
      by apply (proj1 (allExist_spec _ _) Hexist).
    + intros other Hne. unfold TasksRoute.POST in Hcreate.
      destruct due; [|done]. case_decide; [done|].
      destruct (db !! newId); [done|].
      destruct (Prisma.allExist db (default [] deps)); [|done].
      injection Hcreate as <-. by rewrite lookup_insert_ne.
    + intros Hwf Hacyclic. by eapply create_preserves.
Qed.

(** Creating [c] with the dependency [b] in the store of [a] and [b]. *)
Lemma create_task_safe_witness :
  Sample.independent !! "c" = None.
Proof.
  destruct (create_task_safe Sample.independent "c" "Make slides"
              (Some (7 * Sample.day)) (Some ["b"])) as [_ H].
  destruct (H (<["c" := mkTask "c" "Make slides" TODO (7 * Sample.day) None
                          ["b"]]> Sample.independent)) as [H1 _];
    [by vm_compute|done].
Defined.

(** ** The task update endpoint *)

(** X11.  An update of an existing task that carries a non-empty dependency
    list is never committed: it is refused as circular, or, when it also
    asks for the status done while a dependency is not done, by the
    completion gate.  Only the empty list can be stored through this
    endpoint. *)
Theorem put_refuses_nonempty_dependencies (db : Store) (taskId : string)
    (body : TaskRoute.Body.t) (d : string) (ds : list string) :
  is_Some (db !! taskId) →
  TaskRoute.Body.dependencies body = Some (d :: ds) →
  TaskRoute.PUT db taskId body = CircularDependency
  ∨ (TaskRoute.normalizedStatus body = Some DONE
     ∧ ∃ l, l ≠ [] ∧ TaskRoute.PUT db taskId body = IncompleteDependencies l).
Proof.
  intros [t Ht] Hd. unfold TaskRoute.PUT. rewrite Ht.
  case_decide as Hgate.
  - right. destruct Hgate as [Hdone Hne]. split; [done|].
    eexists. split; [|done].
    by destruct (TaskRoute.incompleteDependencies db t).
  - left. by rewrite Hd, put_check_nonempty.
Qed.

(** Proposing [{c}] for [a], which depends on [b]. *)
Lemma put_refuses_nonempty_dependencies_witness :
  TaskRoute.PUT Sample.related "a" (TaskRoute.Body.mk None (Some ["c"]))
    = CircularDependency
  ∨ (TaskRoute.normalizedStatus (TaskRoute.Body.mk None (Some ["c"]))
       = Some DONE
     ∧ ∃ l, l ≠ []
         ∧ TaskRoute.PUT Sample.related "a"
             (TaskRoute.Body.mk None (Some ["c"]))
           = IncompleteDependencies l).
Proof.
  apply (put_refuses_nonempty_dependencies Sample.related "a"
           (TaskRoute.Body.mk None (Some ["c"])) "c" []);
    [by eexists|reflexivity].
Defined.

(** X12.  After an accepted update to the status done, the task is done and
    so is every dependency it has in the new store. *)
Theorem put_done_has_done_dependencies (db db' : Store) (taskId : string)
    (body : TaskRoute.Body.t) :
  TaskRoute.normalizedStatus body = Some DONE →
  TaskRoute.PUT db taskId body = Updated db' →
  ∃ t', db' !! taskId = Some t' ∧ status t' = DONE
    ∧ ∀ d dep, d ∈ dependencies t' → db' !! d = Some dep →
        status dep = DONE.
Proof.
  intros Hdone. unfold TaskRoute.PUT, TaskRoute.update. rewrite Hdone.
  destruct (db !! taskId) as [existing|] eqn:Htask; [|done].
  case_decide as Hgate; [done|].
  assert (Hnone : ∀ dep, ¬ blocks db existing dep).
  { intros dep Hdep. apply elem_of_incompleteDependencies in Hdep.
    apply Hgate. split; [done|]. intros Hnil. rewrite Hnil in Hdep.
    by apply elem_of_nil in Hdep. }
  assert (Hkeep : ∀ t', status t' = DONE →
            dependencies t' ⊆ dependencies existing →
            ∃ t, <[taskId := t']> db !! taskId = Some t ∧ status t = DONE
              ∧ ∀ d dep, d ∈ dependencies t →
                  <[taskId := t']> db !! d = Some dep → status dep = DONE).
  { intros t' Hstatus Hsub. exists t'. split; [apply lookup_insert_eq|].
    split; [done|]. intros d dep Hd Hdep.
    apply lookup_insert_Some in Hdep as [[_ <-]|[Hne Hdep]]; [done|].
    destruct (decide (status dep = DONE)) as [|Hnot]; [done|].
    destruct (Hnone dep). exists d. split; [by apply Hsub|done]. }
  destruct (TaskRoute.Body.dependencies body) as [[|d ds]|].
  - destruct (Prisma.allExist db []); [|done]. intros [= <-].
    apply Hkeep; [done|]. simpl. set_solver.
  - by rewrite put_check_nonempty.
  - intros [= <-]. by apply Hkeep.
Qed.

(** Marking [a] done in the store of the unrelated tasks [a] and [b]. *)
Lemma put_done_has_done_dependencies_witness :
  ∃ t', (<["a" := Prisma.withStatus Sample.a0 DONE]> Sample.independent)
          !! "a" = Some t' ∧ status t' = DONE
    ∧ ∀ d dep, d ∈ dependencies t' →
        (<["a" := Prisma.withStatus Sample.a0 DONE]> Sample.independent)
          !! d = Some dep → status dep = DONE.
Proof.
  apply (put_done_has_done_dependencies Sample.independent _ "a"
           (TaskRoute.Body.mk (Some "done") None)); by vm_compute.
Defined.

(** X13.  A task that is not done and has itself among its dependencies
    can never be marked done: every such request is refused by the
    completion gate, and the task is on the list of blocking
    dependencies. *)
Theorem self_dependent_task_never_done (db : Store) (taskId : string)
    (task : Task) (body : TaskRoute.Body.t) :
  db !! taskId = Some task → taskId ∈ dependencies task →
  status task ≠ DONE →
  TaskRoute.normalizedStatus body = Some DONE →
  ∃ l, TaskRoute.PUT db taskId body = IncompleteDependencies l
       ∧ (id task, title task) ∈ l.
Proof.
  intros Htask Hself Hstatus Hdone. unfold TaskRoute.PUT. rewrite Htask.
  assert (Hin : task ∈ TaskRoute.incompleteDependencies db task).
  { apply elem_of_incompleteDependencies. by exists taskId. }
  rewrite decide_True.
  - eexists. split; [done|]. apply list_elem_of_fmap. by exists task.
  - split; [done|]. intros Hnil. rewrite Hnil in Hin.
    by apply elem_of_nil in Hin.
Qed.

(** The store in which [a] depends on itself. *)
Lemma self_dependent_task_never_done_witness :
  ∃ l, TaskRoute.PUT (<["a" := Prisma.withDependencies Sample.a0 ["a"]]> ∅)
         "a" (TaskRoute.Body.mk (Some "done") None)
       = IncompleteDependencies l
       ∧ ("a", "Research topic") ∈ l.
Proof.
  apply (self_dependent_task_never_done
           (<["a" := Prisma.withDependencies Sample.a0 ["a"]]> ∅) "a"
           (Prisma.withDependencies Sample.a0 ["a"]));
    [reflexivity|simpl; set_solver|discriminate|reflexivity].
Defined.

(** X14.  The two status conversions are inverse to each other on the
    values each side uses: an enum value shown to the client and sent back
    is read as the same enum value, and a client value ([todo],
    [in-progress], [done], in any letter case) stored and shown again comes
    back in lower case.  Whatever is sent, the client is shown one of the
    three values. *)
Theorem status_conversions_round_trip :
  (∀ e : TaskStatus,
     TaskRoute.convertStatusToEnum
       (StatusFormat.convertStatusToFrontend (StatusFormat.enumName e)) = e)
  ∧ (∀ s : string,
       TaskRoute.toLowerCase s = "todo"
       ∨ TaskRoute.toLowerCase s = "in-progress"
       ∨ TaskRoute.toLowerCase s = "done" →
       StatusFormat.convertStatusToFrontend
         (StatusFormat.enumName (TaskRoute.convertStatusToEnum s))
       = TaskRoute.toLowerCase s)
  ∧ (∀ s : string,
       StatusFormat.convertStatusToFrontend
         (StatusFormat.enumName (TaskRoute.convertStatusToEnum s))
       ∈ ["todo"; "in-progress"; "done"]).
Proof.
  split; [|split].
  - by intros [].
  - intros s Hs. unfold TaskRoute.convertStatusToEnum.
    destruct Hs as [Hs|[Hs|Hs]]; rewrite Hs; reflexivity.
  - intros s. unfold TaskRoute.convertStatusToEnum.
    repeat case_decide; simpl; set_solver.
Qed.

(** The status [In-Progress] comes back as [in-progress]. *)
Lemma status_conversions_round_trip_witness :
  StatusFormat.convertStatusToFrontend
    (StatusFormat.enumName (TaskRoute.convertStatusToEnum "In-Progress"))
  = "in-progress".
Proof.
  destruct status_conversions_round_trip as (_ & H & _).
  apply (H "In-Progress"). right. left. reflexivity.
Defined.

(** ** The shape of the critical path *)

Lemma linked_snoc (taskMap : gmap string Task) (path : list string)
    (taskId : string) :
  linked taskMap path →
  (path = [] ∨ ∃ d t, last path = Some d ∧ taskMap !! taskId = Some t
                      ∧ d ∈ dependencies t) →
  linked taskMap (path ++ [taskId]).
Proof.
  induction path as [|a [|b rest] IH]; intros Hlinked Hlast; [done| |].
  - destruct Hlast as [|(d & t & [= <-] & Ht & Hd)]; [done|].
    simpl. split; [|done]. by exists t.
  - destruct Hlinked as [Hab Hrest]. split; [done|].
    apply IH; [done|]. right.
    destruct Hlast as [|(d & t & Hlast & Ht & Hd)]; [done|]. by exists d, t.
Qed.

Section PathShape.
Variable taskMap : gmap string Task.

Lemma forDependencies_shape (fuel : nat) (taskId : string) (task : Task)
    (m0 : Analysis.Memo) :
  (∀ d m path m', Analysis.dfs fuel taskMap d m = Some (path, m') →
     (∀ x, is_Some (Analysis.pathLengths m !! x) → x ∈ Analysis.visited m) →
     pathShape taskMap d m path m') →
  (∀ x, is_Some (Analysis.pathLengths m0 !! x) → x ∈ Analysis.visited m0) →
  ∀ deps maxLength longestPath m path m',
    Analysis.forDependencies (Analysis.dfs fuel taskMap) deps maxLength
      longestPath m = Some (path, m') →
    (∀ d, d ∈ deps → d ∈ dependencies task) →
    Analysis.visited m0 ⊆ Analysis.visited m →
    (∀ x, is_Some (Analysis.pathLengths m0 !! x) →
       is_Some (Analysis.pathLengths m !! x)) →
    (∀ x, is_Some (Analysis.pathLengths m !! x) →
       is_Some (Analysis.pathLengths m0 !! x)
       ∨ (x ∈ Analysis.visited m ∧ x ∉ Analysis.visited m0)) →
    (linked taskMap longestPath
     ∧ (longestPath = [] ∨ ∃ d, d ∈ dependencies task
                                ∧ last longestPath = Some d)
     ∧ NoDup longestPath
     ∧ ∀ x, x ∈ longestPath → is_Some (Analysis.pathLengths m !! x)) →
    (linked taskMap path
     ∧ (path = [] ∨ ∃ d, d ∈ dependencies task ∧ last path = Some d)
     ∧ NoDup path
     ∧ ∀ x, x ∈ path → is_Some (Analysis.pathLengths m' !! x))
    ∧ Analysis.visited m0 ⊆ Analysis.visited m'
    ∧ (∀ x, is_Some (Analysis.pathLengths m0 !! x) →
         is_Some (Analysis.pathLengths m' !! x))
    ∧ (∀ x, is_Some (Analysis.pathLengths m' !! x) →
         is_Some (Analysis.pathLengths m0 !! x)
         ∨ (x ∈ Analysis.visited m' ∧ x ∉ Analysis.visited m0)).
Proof.
  intros IH Hinv.
  induction deps as [|dep deps IHdeps];
    intros maxLength longestPath m path m' Hrun Hdeps Hsub Hmono Hnew Hlongest.
  - simpl in Hrun. injection Hrun as <- <-. done.
  - simpl in Hrun.
    destruct (Analysis.dfs fuel taskMap dep m) as [[depPath m1]|] eqn:Hdfs;
      [|done].
    assert (Hm : ∀ x, is_Some (Analysis.pathLengths m !! x) →
                      x ∈ Analysis.visited m).
    { intros x Hx. destruct (Hnew x Hx) as [Hx0|[? _]]; [|done].
      apply Hsub. by apply Hinv. }
    destruct (IH dep m depPath m1 Hdfs Hm)
      as (Hl & Hlast & Hnd & Hkeys & Hsub1 & Hmono1 & Hnew1).
    assert (Hsub' : Analysis.visited m0 ⊆ Analysis.visited m1)
      by set_solver.
    assert (Hmono' : ∀ x, is_Some (Analysis.pathLengths m0 !! x) →
              is_Some (Analysis.pathLengths m1 !! x)) by auto.
    assert (Hnew' : ∀ x, is_Some (Analysis.pathLengths m1 !! x) →
              is_Some (Analysis.pathLengths m0 !! x)
              ∨ (x ∈ Analysis.visited m1 ∧ x ∉ Analysis.visited m0)).
    { intros x Hx. destruct (Hnew1 x Hx) as [Hx1|[Hx1 Hx2]].
      - destruct (Hnew x Hx1) as [?|[? ?]]; [by left|right].
        split; [set_solver|done].
      - right. split; [done|set_solver]. }
    assert (Hdeps' : ∀ d, d ∈ deps → d ∈ dependencies task)
      by (intros; apply Hdeps; by right).
    destruct (maxLength <? length depPath)%nat.
    + apply (IHdeps _ _ _ _ _ Hrun Hdeps' Hsub' Hmono' Hnew').
      split; [done|]. split; [|done].
      destruct Hlast as [->|Hlast]; [by left|right].
      exists dep. split; [apply Hdeps; left|done].
    + apply (IHdeps _ _ _ _ _ Hrun Hdeps' Hsub' Hmono' Hnew').
      destruct Hlongest as (H1 & H2 & H3 & H4).
      split; [done|]. split; [done|]. split; [done|].
      intros x Hx. apply Hmono1. by apply H4.
Qed.

Lemma dfs_shape (fuel : nat) :
  ∀ taskId m path m', Analysis.dfs fuel taskMap taskId m = Some (path, m') →
    (∀ x, is_Some (Analysis.pathLengths m !! x) → x ∈ Analysis.visited m) →
    pathShape taskMap taskId m path m'.
Proof.
  induction fuel as [|fuel IH]; intros taskId m path m'; [done|].
  rewrite dfs_S. cbv zeta. case_decide as Hvisited.
  { intros [= <- <-] Hinv. unfold pathShape.
    case_decide; simpl; repeat split; auto using NoDup_nil_2, NoDup_singleton.
    - intros x Hx. by apply list_elem_of_singleton in Hx as ->.
    - intros x Hx. by apply elem_of_nil in Hx. }
  intros Hrun Hinv.
  assert (Hnolength : Analysis.pathLengths m !! taskId = None).
  { destruct (Analysis.pathLengths m !! taskId) eqn:E; [|done].
    destruct Hvisited. apply Hinv. by eexists. }
  assert (Hleaf : pathShape taskMap taskId m [taskId]
            (Analysis.setLength taskId 1
               (Analysis.mkMemo ({[taskId]} ∪ Analysis.visited m)
                                (Analysis.pathLengths m)))).
  { unfold pathShape. simpl. split; [done|]. split; [by right|].
    split; [apply NoDup_singleton|]. split; [|split; [set_solver|split]].
    - intros x Hx. apply list_elem_of_singleton in Hx as ->.
      rewrite lookup_insert_eq. by eexists.
    - intros x Hx. apply lookup_insert_is_Some'. by right.
    - intros x Hx. apply lookup_insert_is_Some' in Hx as [<-|Hx]; [|by left].
      right. split; [set_solver|done]. }
  destruct (taskMap !! taskId) as [task|] eqn:Htask;
    [|by injection Hrun as <- <-].
  destruct (dependencies task) as [|dep deps] eqn:Hdeps;
    [by injection Hrun as <- <-|].
  destruct (Analysis.forDependencies (Analysis.dfs fuel taskMap)
              (dep :: deps) 0 []
              (Analysis.mkMemo ({[taskId]} ∪ Analysis.visited m)
                               (Analysis.pathLengths m)))
    as [[longestPath m2]|] eqn:Hloop; [|done].
  injection Hrun as <- <-.
  destruct (forDependencies_shape fuel taskId task
              (Analysis.mkMemo ({[taskId]} ∪ Analysis.visited m)
                               (Analysis.pathLengths m))
              IH) with
    (deps := dep :: deps) (maxLength := 0%nat) (longestPath := @nil string)
    (m := Analysis.mkMemo ({[taskId]} ∪ Analysis.visited m)
                          (Analysis.pathLengths m))
    (path := longestPath) (m' := m2)
    as ((Hl & Hlast & Hnd & Hkeys) & Hsub & Hmono & Hnew); try done.
  - simpl. intros x Hx. apply Hinv in Hx. set_solver.
  - intros d Hd. by rewrite Hdeps.
  - intros x Hx. by left.
  - split; [done|]. split; [by left|]. split; [apply NoDup_nil_2|].
    intros x Hx. by apply elem_of_nil in Hx.
  - simpl in *.
    assert (Hnot : taskId ∉ longestPath).
    { intros Hin. destruct (Hnew taskId (Hkeys taskId Hin)) as [[? E]|[_ ?]].
      - congruence.
      - set_solver. }
    unfold pathShape. simpl. split; [|split; [|split; [|split; [|split;
      [set_solver|split]]]]].
    + apply linked_snoc; [done|].
      destruct Hlast as [->|(d & Hd & Hlast)]; [by left|right].
      by exists d, task.
    + right. by rewrite last_snoc.
    + apply NoDup_app. split; [done|]. split; [|apply NoDup_singleton].
      intros x Hx Hx'. by apply list_elem_of_singleton in Hx' as ->.
    + intros x Hx. apply lookup_insert_is_Some'.
      apply elem_of_app in Hx as [Hx|Hx]; [right; by apply Hkeys|left].
      by apply list_elem_of_singleton in Hx.
    + intros x Hx. apply lookup_insert_is_Some'. right. by apply Hmono.
    + intros x Hx. apply lookup_insert_is_Some' in Hx as [<-|Hx].
      * right. split; [set_solver|done].
      * destruct (Hnew x Hx) as [?|[? ?]]; [by left|right].
        split; [done|set_solver].
Qed.

Lemma forTasks_shape (fuel : nat) (tasks : list Task) :
  ∀ maxLength criticalPath m ids,
    Analysis.forTasks fuel taskMap tasks maxLength criticalPath m = Some ids →
    (∀ x, is_Some (Analysis.pathLengths m !! x) → x ∈ Analysis.visited m) →
    linked taskMap criticalPath ∧ NoDup criticalPath →
    linked taskMap ids ∧ NoDup ids.
Proof.
  induction tasks as [|t tasks IH]; intros maxLength criticalPath m ids; simpl.
  - by intros [= <-].
  - case_decide; [apply IH|].
    destruct (Analysis.dfs fuel taskMap (id t) m) as [[path m']|] eqn:Hdfs;
      [|done].
    intros Hrun Hinv Hcp.
    destruct (dfs_shape fuel (id t) m path m' Hdfs Hinv)
      as (Hl & _ & Hnd & _ & Hsub & _ & Hnew).
    assert (Hinv' : ∀ x, is_Some (Analysis.pathLengths m' !! x) →
                         x ∈ Analysis.visited m').
    { intros x Hx. destruct (Hnew x Hx) as [?|[? _]]; [|done].
      apply Hsub. by apply Hinv. }
    destruct (maxLength <? length path)%nat; by eapply IH.
Qed.

End PathShape.

Lemma critical_path_shape_helper (tasks : list Task) (ids : list string) :
  Analysis.criticalPathIds tasks = Some ids →
  linked (Analysis.idMap tasks) ids ∧ NoDup ids.
Proof.
  intros Hids. apply (forTasks_shape _ _ _ _ _ _ _ Hids).
  - simpl. intros x [? Hx]. by rewrite lookup_empty in Hx.
  - split; [done|apply NoDup_nil_2].
Qed.

(** X16.  Whatever the input, cyclic or not, the critical path returned is a
    chain in which each task depends on the task before it, so it runs from
    upstream to downstream, and no task occurs on it twice. *)
Theorem critical_path_is_a_chain (tasks : list Task) (ids : list string) :
  Analysis.criticalPathIds tasks = Some ids →
  linked (Analysis.idMap tasks) ids ∧ NoDup ids.
Proof. apply critical_path_shape_helper. Qed.

(** The chain [c -> b -> a] read as [b], [a], [c]. *)
Lemma critical_path_is_a_chain_witness :
  linked (Analysis.idMap Sample.chain) ["a"; "b"] ∧ NoDup ["a"; "b"].
Proof.
  apply (critical_path_is_a_chain Sample.chain). by vm_compute.
Defined.

(** ** The analysis on every input *)

Lemma dfs_unvisited_nonempty (fuel : nat) (taskMap : gmap string Task)
    (taskId : string) (m m' : Analysis.Memo) (path : list string) :
  taskId ∉ Analysis.visited m →
  Analysis.dfs fuel taskMap taskId m = Some (path, m') → path ≠ [].
Proof.
  intros Hnew. destruct fuel as [|fuel]; [done|].
  rewrite dfs_S. cbv zeta. rewrite decide_False by done.
  destruct (taskMap !! taskId) as [task|]; [|by intros [= <- _]].
  destruct (dependencies task); [by intros [= <- _]|].
  destruct (Analysis.forDependencies _ _ _ _ _) as [[longestPath m2]|];
    [|done].
  intros [= <- _]. by destruct longestPath.
Qed.

Lemma forTasks_nonempty (fuel : nat) (taskMap : gmap string Task)
    (tasks : list Task) :
  ∀ maxLength criticalPath m ids,
    Analysis.forTasks fuel taskMap tasks maxLength criticalPath m = Some ids →
    maxLength = length criticalPath →
    (criticalPath ≠ [] ∨ (tasks ≠ [] ∧ Analysis.visited m = ∅)) →
    ids ≠ [].
Proof.
  induction tasks as [|t tasks IH]; intros maxLength criticalPath m ids; simpl.
  - intros [= <-] _ [?|[? _]]; done.
  - case_decide as Hvisited.
    + intros Hrun Hlen [Hne|[_ Hempty]].
      * apply (IH _ _ _ _ Hrun Hlen). by left.
      * rewrite Hempty in Hvisited. set_solver.
    + destruct (Analysis.dfs fuel taskMap (id t) m) as [[path m']|] eqn:Hdfs;
        [|done].
      pose proof (dfs_unvisited_nonempty _ _ _ _ _ _ Hvisited Hdfs) as Hpath.
      intros Hrun Hlen Hstart.
      destruct (Nat.ltb_spec maxLength (length path)) as [Hlt|Hge].
      * apply (IH _ _ _ _ Hrun eq_refl). by left.
      * apply (IH _ _ _ _ Hrun Hlen). left. intros ->. simpl in Hlen.
        destruct path; [done|]. simpl in Hge. lia.
Qed.

Lemma days_positive (now : Z) (task : Task) : 1 ≤ Analysis.days now task.
Proof. unfold Analysis.days. lia. Qed.

(** X15.  The analysis returns a result for every list of tasks, cyclic
    dependencies included: the search visits each task once.  The critical
    path is empty only when there is no task, and the total duration is
    never negative. *)
Theorem analysis_returns (now : Z) (tasks : list Task) :
  ∃ res, Analysis.GET now tasks = Some res
    ∧ (Analysis.criticalPath res = [] ↔ tasks = [])
    ∧ 0 ≤ Analysis.totalDuration res.
Proof.
  destruct (criticalPathIds_total tasks) as [ids Hids].
  unfold Analysis.GET, Analysis.findCriticalPath. rewrite Hids. simpl.
  eexists. split; [done|]. simpl. split.
  - split.
    + intros Hnil. destruct ids; [|done].
      destruct tasks as [|t tasks]; [done|]. exfalso.
      by apply (forTasks_nonempty _ _ _ _ _ _ _ Hids eq_refl); [right|].
    + intros ->. vm_compute in Hids. by injection Hids as <-.
  - rewrite calculateTotalDuration_sum.
    induction (map _ ids) as [|e l IH]; simpl; [done|].
    destruct (Analysis.titleMap tasks !! e) as [t|].
    + pose proof (days_positive now t). lia.
    + lia.
Qed.

(** X17.  When the titles are pairwise distinct and every dependency is one
    of the tasks, the critical path has at most as many entries as there
    are tasks, and the total duration is at least one day for each entry of
    the critical path. *)
Theorem total_duration_at_least_path_length (now : Z) (tasks : list Task) :
  NoDup (map title tasks) →
  (∀ t d, t ∈ tasks → d ∈ dependencies t → ∃ t', t' ∈ tasks ∧ id t' = d) →
  ∃ res, Analysis.GET now tasks = Some res
    ∧ (length (Analysis.criticalPath res) ≤ length tasks)%nat
    ∧ Z.of_nat (length (Analysis.criticalPath res))
      ≤ Analysis.totalDuration res.
Proof.
  intros Htitles Hclosed.
  destruct (criticalPathIds_tasks tasks Hclosed) as (ids & Hids & Hin).
  destruct (critical_path_shape_helper tasks ids Hids) as [_ Hnd].
  unfold Analysis.GET, Analysis.findCriticalPath. rewrite Hids. simpl.
  eexists. split; [done|]. simpl. rewrite length_map. split.
  - rewrite <- (length_map id tasks).
    apply NoDup_incl_length; [by apply NoDup_ListNoDup|].
    intros x Hx. apply list_elem_of_In in Hx. apply list_elem_of_In.
    destruct (Hin x Hx) as [t Ht]. apply idMap_Some in Ht as [Ht <-].
    apply list_elem_of_fmap. by exists t.
  - rewrite calculateTotalDuration_sum. clear Hids Hnd.
    induction ids as [|i ids IH]; [done|].
    destruct (Hin i) as [t Ht]; [left|].
    cbn [map length sumZ foldr]. unfold Analysis.titleOf at 1. rewrite Ht.
    apply idMap_Some in Ht as [Ht _].
    rewrite (titleMap_NoDup tasks t Htitles Ht).
    pose proof (days_positive now t).
    assert (Z.of_nat (length ids)
            ≤ sumZ (map (λ entry, match Analysis.titleMap tasks !! entry with
                                  | Some task => Analysis.days now task
                                  | None => 0
                                  end)
                      (map (Analysis.titleOf (Analysis.idMap tasks)) ids)))
      by (apply IH; intros; apply Hin; by right).
    unfold sumZ in *. lia.
Qed.

(** ** Levels of the dependency graph *)

(** One unfolding of [calculateLevel]. *)
Lemma calculateLevel_S (fuel : nat) (taskMap : gmap string Task)
    (taskId : string) (s : DependencyGraph.Marks) :
  DependencyGraph.calculateLevel (S fuel) taskMap taskId s =
  match DependencyGraph.levels s !! taskId with
  | Some level => Some (level, s)
  | None =>
      if decide (taskId ∈ DependencyGraph.visited s) then Some (0%nat, s)
      else
        let s1 := DependencyGraph.mkMarks (DependencyGraph.levels s)
                    ({[taskId]} ∪ DependencyGraph.visited s) in
        match taskMap !! taskId with
        | None => Some (0%nat, DependencyGraph.setLevel taskId 0 s1)
        | Some task =>
            match dependencies task with
            | [] => Some (0%nat, DependencyGraph.setLevel taskId 0 s1)
            | deps =>
                match DependencyGraph.forDependencies
                        (DependencyGraph.calculateLevel fuel taskMap)
                        deps 0 s1 with
                | None => None
                | Some (maxLevel, s2) =>
                    Some (maxLevel,
                          DependencyGraph.setLevel taskId maxLevel s2)
                end
            end
        end
  end.
Proof. reflexivity. Qed.

Section LevelSearch.
Variable taskMap : gmap string Task.

(** The search returns: each task is expanded at most once. *)
Lemma calculateLevel_returns (fuel : nat) :
  ∀ taskId s,
    (size (dom taskMap ∖ DependencyGraph.visited s) < fuel)%nat →
    ∃ l s', DependencyGraph.calculateLevel fuel taskMap taskId s
              = Some (l, s')
            ∧ DependencyGraph.visited s ⊆ DependencyGraph.visited s'.
Proof.
  induction fuel as [|fuel IH]; intros taskId s Hsize; [lia|].
  rewrite calculateLevel_S. cbv zeta.
  destruct (DependencyGraph.levels s !! taskId); [by eexists _, _|].
  case_decide as Hvisited; [by eexists _, _|].
  destruct (taskMap !! taskId) as [task|] eqn:Htask;
    [|eexists _, _; split; [done|simpl; set_solver]].
  destruct (dependencies task) as [|dep deps];
    [eexists _, _; split; [done|simpl; set_solver]|].
  assert (Hloop : ∀ deps maxLevel s1,
    (size (dom taskMap ∖ DependencyGraph.visited s1) < fuel)%nat →
    ∃ l s', DependencyGraph.forDependencies
              (DependencyGraph.calculateLevel fuel taskMap) deps maxLevel s1
            = Some (l, s')
          ∧ DependencyGraph.visited s1 ⊆ DependencyGraph.visited s').
  { clear -IH. induction deps as [|d deps IHdeps]; intros maxLevel s1 Hsize.
    - by eexists _, _.
    - simpl. destruct (IH d s1 Hsize) as (l & s2 & -> & Hsub).
      destruct (IHdeps (Nat.max maxLevel (l + 1)) s2)
        as (l' & s' & -> & Hsub').
      + eapply Nat.le_lt_trans; [by apply unvisited_mono|done].
      + eexists _, _. split; [done|]. set_solver. }
  destruct (Hloop (dep :: deps) 0%nat
              (DependencyGraph.mkMarks (DependencyGraph.levels s)
                 ({[taskId]} ∪ DependencyGraph.visited s)))
    as (l & s' & -> & Hsub).
  - simpl. assert (taskId ∈ dom taskMap) by (apply elem_of_dom; eauto).
    pose proof (unvisited_less (dom taskMap) (DependencyGraph.visited s)
                  taskId ltac:(done) Hvisited).
    lia.
  - eexists _, _. split; [done|]. simpl in *. set_solver.
Qed.

End LevelSearch.

Section LevelInvariant.
Variable taskMap : gmap string Task.

Lemma levelsRight_insert (lv : gmap string nat) (taskId : string) (l : nat) :
  levelsRight taskMap lv → lv !! taskId = None →
  match taskMap !! taskId with
  | None => l = 0%nat
  | Some task =>
      match dependencies task with
      | [] => l = 0%nat
      | deps =>
          (∀ d, d ∈ deps → ∃ ld, lv !! d = Some ld ∧ (ld < l)%nat)
          ∧ ∃ d ld, d ∈ deps ∧ lv !! d = Some ld ∧ l = S ld
      end
  end →
  levelsRight taskMap (<[taskId := l]> lv).
Proof.
  intros Hright Hnew Hl k l' Hk.
  assert (Hkeep : ∀ d ld, lv !! d = Some ld →
                          <[taskId := l]> lv !! d = Some ld).
  { intros d ld Hd. rewrite lookup_insert_ne; [done|]. congruence. }
  apply lookup_insert_Some in Hk as [[<- <-]|[Hne Hk]].
  - destruct (taskMap !! taskId) as [task|]; [|done].
    destruct (dependencies task) as [|dep deps]; [done|].
    destruct Hl as [Hall (d & ld & Hd & Hld & ->)]. split.
    + intros d' Hd'. destruct (Hall d' Hd') as (ld' & ? & ?). eauto.
    + exists d, ld. eauto.
  - specialize (Hright k l' Hk).
    destruct (taskMap !! k) as [task|]; [|done].
    destruct (dependencies task) as [|dep deps]; [done|].
    destruct Hright as [Hall (d & ld & Hd & Hld & ->)]. split.
    + intros d' Hd'. destruct (Hall d' Hd') as (ld' & ? & ?). eauto.
    + exists d, ld. eauto.
Qed.

Lemma calculateLevel_call (fuel : nat) :
  ∀ taskId s l s',
    DependencyGraph.calculateLevel fuel taskMap taskId s = Some (l, s') →
    (∀ k, is_Some (DependencyGraph.levels s !! k) →
          k ∈ DependencyGraph.visited s) →
    levelCall taskId s l s'
    ∧ (acyclic taskMap → levelsRight taskMap (DependencyGraph.levels s) →
       (∀ p, p ∈ DependencyGraph.visited s →
             DependencyGraph.levels s !! p = None →
             tc (depends taskMap) p taskId) →
       levelsRight taskMap (DependencyGraph.levels s')
       ∧ DependencyGraph.levels s' !! taskId = Some l).
Proof.
  induction fuel as [|fuel IH]; intros taskId s l s'; [done|].
  rewrite calculateLevel_S. cbv zeta.
  destruct (DependencyGraph.levels s !! taskId) as [l0|] eqn:Hlevel.
  { intros [= <- <-] _. unfold levelCall. split; [|done].
    split; [done|]. split; [done|]. split; [done|]. split; [by left|].
    by left. }
  case_decide as Hvisited.
  { intros [= <- <-] _. unfold levelCall. split.
    - split; [done|]. split; [done|]. split; [done|]. split; [by left|].
      by right.
    - intros Hacyclic _ Hreach. destruct (Hacyclic taskId).
      by apply Hreach. }
  intros Hrun Hkeys.
  set (s1 := DependencyGraph.mkMarks (DependencyGraph.levels s)
               ({[taskId]} ∪ DependencyGraph.visited s)) in *.
  assert (Hleaf : ∀ l0,
    match taskMap !! taskId with
    | None => l0 = 0%nat
    | Some task => match dependencies task with
                   | [] => l0 = 0%nat
                   | _ => False
                   end
    end →
    levelCall taskId s l0 (DependencyGraph.setLevel taskId l0 s1)
    ∧ (acyclic taskMap → levelsRight taskMap (DependencyGraph.levels s) →
       (∀ p, p ∈ DependencyGraph.visited s →
             DependencyGraph.levels s !! p = None →
             tc (depends taskMap) p taskId) →
       levelsRight taskMap
         (DependencyGraph.levels (DependencyGraph.setLevel taskId l0 s1))
       ∧ DependencyGraph.levels (DependencyGraph.setLevel taskId l0 s1)
           !! taskId = Some l0)).
  { intros l0 Hl0. unfold levelCall. simpl. split.
    - split; [by apply insert_subseteq|]. split; [set_solver|].
      split; [|split].
      + intros p Hp Hnone. apply lookup_insert_None in Hnone as [Hnone Hne].
        split; [set_solver|done].
      + intros k Hk. apply lookup_insert_is_Some' in Hk as [<-|Hk];
          [right; split; [set_solver|done]|by left].
      + left. apply lookup_insert_eq.
    - intros _ Hright _. split; [|apply lookup_insert_eq].
      apply levelsRight_insert; [done|done|].
      destruct (taskMap !! taskId) as [task|]; [|done].
      by destruct (dependencies task). }
  destruct (taskMap !! taskId) as [task|] eqn:Htask;
    [|injection Hrun as <- <-; by apply Hleaf].
  destruct (dependencies task) as [|dep deps] eqn:Hdeps;
    [injection Hrun as <- <-; by apply Hleaf|].
  clear Hleaf.
  destruct (DependencyGraph.forDependencies
              (DependencyGraph.calculateLevel fuel taskMap) (dep :: deps)
              0 s1) as [[maxLevel s2]|] eqn:Hloop; [|done].
  injection Hrun as <- <-.
  assert (Hfor : ∀ todo maxLevel0 sk lk s'',
    DependencyGraph.forDependencies
      (DependencyGraph.calculateLevel fuel taskMap) todo maxLevel0 sk
      = Some (lk, s'') →
    (∀ k, is_Some (DependencyGraph.levels sk !! k) →
          k ∈ DependencyGraph.visited sk) →
    (DependencyGraph.levels sk ⊆ DependencyGraph.levels s''
     ∧ DependencyGraph.visited sk ⊆ DependencyGraph.visited s''
     ∧ (∀ p, p ∈ DependencyGraph.visited s'' →
            DependencyGraph.levels s'' !! p = None →
            p ∈ DependencyGraph.visited sk
            ∧ DependencyGraph.levels sk !! p = None)
     ∧ (∀ k, is_Some (DependencyGraph.levels s'' !! k) →
            is_Some (DependencyGraph.levels sk !! k)
            ∨ (k ∈ DependencyGraph.visited s''
               ∧ k ∉ DependencyGraph.visited sk)))
    ∧ (acyclic taskMap → levelsRight taskMap (DependencyGraph.levels sk) →
       (∀ p, p ∈ DependencyGraph.visited sk →
             DependencyGraph.levels sk !! p = None →
             p = taskId ∨ tc (depends taskMap) p taskId) →
       (∀ d, d ∈ todo → d ∈ dependencies task) →
       levelsRight taskMap (DependencyGraph.levels s'')
       ∧ (∀ d, d ∈ todo → ∃ ld, DependencyGraph.levels s'' !! d = Some ld
                                 ∧ (ld < lk)%nat)
       ∧ (maxLevel0 ≤ lk)%nat
       ∧ (lk = maxLevel0
          ∨ ∃ d ld, d ∈ todo ∧ DependencyGraph.levels s'' !! d = Some ld
                    ∧ lk = S ld))).
  { clear Hloop. induction todo as [|d todo IHtodo];
      intros maxLevel0 sk lk s'' Hrun Hkeysk.
    - simpl in Hrun. injection Hrun as <- <-. split.
      + split; [done|]. split; [done|]. split; [done|]. intros k Hk.
        by left.
      + intros _ Hright _ _. split; [done|]. split; [|split; [lia|by left]].
        intros d Hd. by apply elem_of_nil in Hd.
    - simpl in Hrun.
      destruct (DependencyGraph.calculateLevel fuel taskMap d sk)
        as [[ld sd]|] eqn:Hcall; [|done].
      destruct (IH d sk ld sd Hcall Hkeysk)
        as [(Hsub1 & Hvis1 & Hhalf1 & Hnew1 & Hres1) Hright1].
      assert (Hkeysd : ∀ k, is_Some (DependencyGraph.levels sd !! k) →
                            k ∈ DependencyGraph.visited sd).
      { intros k Hk. destruct (Hnew1 k Hk) as [?|[? _]]; [|done].
        apply Hvis1. by apply Hkeysk. }
      destruct (IHtodo _ _ _ _ Hrun Hkeysd)
        as [(Hsub2 & Hvis2 & Hhalf2 & Hnew2) Hright2].
      split.
      + split; [by etrans|]. split; [set_solver|]. split.
        * intros p Hp Hnone. destruct (Hhalf2 p Hp Hnone) as [Hp' Hnone'].
          by apply Hhalf1.
        * intros k Hk. destruct (Hnew2 k Hk) as [Hk'|[Hk1 Hk2]].
          -- destruct (Hnew1 k Hk') as [?|[? ?]]; [by left|right].
             split; [by apply Hvis2|done].
          -- right. split; [done|]. intros Hin. apply Hk2. by apply Hvis1.
      + intros Hacyclic Hright Hhalf Htodo.
        assert (Hedge : depends taskMap taskId d).
        { exists task. split; [done|]. apply Htodo. left. }
        destruct Hright1 as [Hrightd Hd]; [done|done| |].
        { intros p Hp Hnone. destruct (Hhalf p Hp Hnone) as [->|Hp'].
          - by apply tc_once.
          - by eapply tc_r. }
        destruct Hright2 as (Hright' & Hall & Hle & Hmax); [done|done| |
          intros; apply Htodo; by right|].
        { intros p Hp Hnone. destruct (Hhalf1 p Hp Hnone) as [Hp' Hnone'].
          by apply Hhalf. }
        split; [done|]. split; [|split; [lia|]].
        * intros d' Hd'. apply elem_of_cons in Hd' as [->|Hd'];
            [|by apply Hall].
          exists ld. split; [by eapply lookup_weaken|lia].
        * destruct Hmax as [->|(d' & ld' & Hd' & Hld' & ->)].
          -- destruct (Nat.max_spec maxLevel0 (ld + 1)) as [[_ ->]|[_ ->]].
             ++ right. exists d, ld. split; [left|].
                split; [by eapply lookup_weaken|lia].
             ++ by left.
          -- right. exists d', ld'. split; [by right|done]. }
  assert (Hkeys1 : ∀ k, is_Some (DependencyGraph.levels s1 !! k) →
                        k ∈ DependencyGraph.visited s1).
  { intros k Hk. simpl in *. apply Hkeys in Hk. set_solver. }
  destruct (Hfor _ _ _ _ _ Hloop Hkeys1)
    as [(Hsub & Hvis & Hhalf & Hnew) Hright2].
  assert (Hfresh : DependencyGraph.levels s2 !! taskId = None).
  { destruct (DependencyGraph.levels s2 !! taskId) eqn:E; [|done].
    destruct (Hnew taskId) as [[? E']|[_ Hnot]]; [by eexists| |].
    - simpl in E'. congruence.
    - simpl in Hnot. set_solver. }
  unfold levelCall. simpl in *. split.
  - split; [etrans; [done|by apply insert_subseteq]|].
    split; [set_solver|]. split; [|split].
    + intros p Hp Hnone. apply lookup_insert_None in Hnone as [Hnone Hne].
      destruct (Hhalf p Hp Hnone) as [Hp' Hnone']. split; [set_solver|done].
    + intros k Hk. apply lookup_insert_is_Some' in Hk as [<-|Hk].
      * right. split; [set_solver|done].
      * destruct (Hnew k Hk) as [?|[? ?]]; [by left|right].
        split; [done|set_solver].
    + left. apply lookup_insert_eq.
  - intros Hacyclic Hright Hreach. split; [|apply lookup_insert_eq].
    destruct Hright2 as (Hright' & Hall & _ & Hmax); [done|done| |
      by intros; rewrite Hdeps|].
    { intros p Hp Hnone. apply elem_of_union in Hp as [Hp|Hp].
      - left. by apply elem_of_singleton in Hp.
      - right. by apply Hreach. }
    apply levelsRight_insert; [done|done|]. rewrite Htask, Hdeps.
    split; [done|]. destruct Hmax as [->|?]; [|done].
    destruct (Hall dep) as (ld & _ & ?); [left|lia].
Qed.

End LevelInvariant.

Lemma level_forTasks (taskMap : gmap string Task) (fuel : nat)
    (tasks : list Task) :
  ∀ s s', DependencyGraph.forTasks fuel taskMap tasks s = Some s' →
    (∀ k, is_Some (DependencyGraph.levels s !! k) →
          k ∈ DependencyGraph.visited s) →
    (∀ p, p ∈ DependencyGraph.visited s →
          is_Some (DependencyGraph.levels s !! p)) →
    DependencyGraph.levels s ⊆ DependencyGraph.levels s'
    ∧ (∀ t, t ∈ tasks → is_Some (DependencyGraph.levels s' !! id t))
    ∧ (acyclic taskMap → levelsRight taskMap (DependencyGraph.levels s) →
       levelsRight taskMap (DependencyGraph.levels s')).
Proof.
  induction tasks as [|t tasks IH]; intros s s'; simpl.
  - intros [= <-] _ _. split; [done|]. split; [|done].
    intros t Ht. by apply elem_of_nil in Ht.
  - destruct (DependencyGraph.calculateLevel fuel taskMap (id t) s)
      as [[l s1]|] eqn:Hcall; [|done].
    intros Hrun Hkeys Hdone.
    destruct (calculateLevel_call taskMap fuel (id t) s l s1 Hcall Hkeys)
      as [(Hsub & Hvis & Hhalf & Hnew & Hres) Hright].
    assert (Hkeys1 : ∀ k, is_Some (DependencyGraph.levels s1 !! k) →
                          k ∈ DependencyGraph.visited s1).
    { intros k Hk. destruct (Hnew k Hk) as [?|[? _]]; [|done].
      apply Hvis. by apply Hkeys. }
    assert (Hdone1 : ∀ p, p ∈ DependencyGraph.visited s1 →
                          is_Some (DependencyGraph.levels s1 !! p)).
    { intros p Hp. destruct (DependencyGraph.levels s1 !! p) eqn:E; [done|].
      destruct (Hhalf p Hp E) as [Hp' Hnone].
      destruct (Hdone p Hp') as [? ?]. congruence. }
    destruct (IH s1 s' Hrun Hkeys1 Hdone1) as (Hsub' & Hall & Hright').
    split; [by etrans|]. split.
    + intros t' Ht'. apply elem_of_cons in Ht' as [->|Ht']; [|by apply Hall].
      destruct Hres as [Hres|(_ & Hin & Hnone)].
      * exists l. by eapply lookup_weaken.
      * destruct (Hdone _ Hin) as [? ?]. congruence.
    + intros Hacyclic Hr. apply Hright'; [done|].
      apply Hright; [done|done|].
      intros p Hp Hnone. destruct (Hdone p Hp) as [? ?]. congruence.
Qed.

Lemma allLevels_returns (tasks : list Task) :
  ∃ lv, DependencyGraph.allLevels tasks = Some lv.
Proof.
  unfold DependencyGraph.allLevels.
  assert (Hfuel : (size (dom (Analysis.idMap tasks)) < S (length tasks))%nat).
  { rewrite size_dom. pose proof (newMap_size (map (λ t, (id t, t)) tasks)).
    rewrite length_map in *. unfold Analysis.idMap. lia. }
  revert Hfuel. generalize (S (length tasks)) as fuel.
  generalize (Analysis.idMap tasks) as taskMap.
  generalize (DependencyGraph.mkMarks ∅ ∅) as s.
  induction tasks as [|t tasks IH]; intros s taskMap fuel Hfuel; simpl.
  - by eexists.
  - destruct (calculateLevel_returns taskMap fuel (id t) s)
      as (l & s' & -> & _).
    + eapply Nat.le_lt_trans; [|done]. apply subseteq_size. set_solver.
    + by apply IH.
Qed.

(** X18.  On an acyclic input the levels of the dependency graph are the
    topological depths: every task has a level; a task without dependencies
    has level 0; the level of any other task is one more than the largest
    level among its dependencies. *)
Theorem levels_are_depths_on_dag (tasks : list Task) :
  acyclic (Analysis.idMap tasks) →
  ∃ lv, DependencyGraph.allLevels tasks = Some lv
    ∧ (∀ t, t ∈ tasks → is_Some (lv !! id t))
    ∧ levelsRight (Analysis.idMap tasks) lv.
Proof.
  intros Hacyclic. destruct (allLevels_returns tasks) as [lv Hlv].
  exists lv. split; [done|]. unfold DependencyGraph.allLevels in Hlv.
  destruct (DependencyGraph.forTasks _ _ _ _) as [s'|] eqn:Hrun; [|done].
  injection Hlv as <-.
  destruct (level_forTasks _ _ _ _ _ Hrun) as (_ & Hall & Hright).
  - simpl. intros k [? Hk]. by rewrite lookup_empty in Hk.
  - simpl. set_solver.
  - split; [done|]. apply Hright; [done|].
    intros k l Hk. simpl in Hk. by rewrite lookup_empty in Hk.
Qed.

(** The chain [c -> b -> a]: [a] has level 0, [b] level 1, [c] level 2. *)
Lemma levels_are_depths_on_dag_witness :
  ∃ lv, DependencyGraph.allLevels Sample.chain = Some lv
    ∧ (∀ t, t ∈ Sample.chain → is_Some (lv !! id t))
    ∧ levelsRight (Analysis.idMap Sample.chain) lv.
Proof.
  apply (levels_are_depths_on_dag Sample.chain).
  apply (acyclic_of_rank _
    (λ x, if decide (x = "c") then 2%nat
          else if decide (x = "b") then 1%nat else 0%nat)).
  intros x y (t & Ht & Hy). cbn in Ht.
  lookup_cases Ht; no_dependency Hy; repeat case_decide; done || lia.
Defined.

(** X19.  The graph is built for every input, cyclic dependencies included:
    the level search returns and gives every task a level, and the graph
    has one node for each task, in the order of the tasks, and one edge for
    each dependency of each task. *)
Theorem graph_built_for_every_input (tasks : list Task)
    (criticalPath : list string) :
  ∃ lv nodes edges,
    DependencyGraph.allLevels tasks = Some lv
    ∧ (∀ t, t ∈ tasks → is_Some (lv !! id t))
    ∧ DependencyGraph.buildDependencyGraph tasks criticalPath
      = Some (nodes, edges)
    ∧ map DependencyGraph.node_task nodes = tasks
    ∧ length edges = length (concat (map dependencies tasks)).
Proof.
  destruct (allLevels_returns tasks) as [lv Hlv].
  unfold DependencyGraph.buildDependencyGraph. rewrite Hlv.
  eexists lv, _, _. split; [done|]. split; [|split; [done|split]].
  - unfold DependencyGraph.allLevels in Hlv.
    destruct (DependencyGraph.forTasks _ _ _ _) as [s'|] eqn:Hrun; [|done].
    injection Hlv as <-.
    destruct (level_forTasks _ _ _ _ _ Hrun) as (_ & Hall & _); [| |done].
    + simpl. intros k [? Hk]. by rewrite lookup_empty in Hk.
    + simpl. set_solver.
  - rewrite map_map. simpl. apply map_id.
  - clear Hlv. induction tasks as [|t tasks IH]; [done|].
    simpl. rewrite !length_app, IH. unfold DependencyGraph.edgesOf.
    by rewrite length_map.
Qed.

(** ** Positions of the nodes *)

(** The group of a level holds the tasks of that level, in the order of the
    input. *)
Lemma tasksByLevel_group (lv : gmap string nat) (tasks : list Task)
    (L : nat) :
  default [] (DependencyGraph.tasksByLevel lv tasks !! L)
  = filter (λ t, DependencyGraph.levelOf lv t = L) tasks.
Proof.
  unfold DependencyGraph.tasksByLevel.
  assert (Hgen : ∀ groups : gmap nat (list Task),
    default [] (fold_left
      (λ groups task,
         <[DependencyGraph.levelOf lv task :=
             default [] (groups !! DependencyGraph.levelOf lv task)
             ++ [task]]> groups) tasks groups !! L)
    = default [] (groups !! L)
      ++ filter (λ t, DependencyGraph.levelOf lv t = L) tasks).
  { induction tasks as [|t tasks IH]; intros groups; simpl.
    - by rewrite app_nil_r.
    - rewrite IH. destruct (decide (DependencyGraph.levelOf lv t = L))
        as [<-|Hne].
      + rewrite lookup_insert_eq. simpl.
        rewrite filter_cons_True by done. by rewrite <- app_assoc.
      + rewrite lookup_insert_ne by done.
        by rewrite filter_cons_False by done. }
  rewrite Hgen. by rewrite lookup_empty.
Qed.

Section FindIndex.
Context {A : Type} (test : A → bool).

Lemma findIndex_bounds (l : list A) :
  -1 ≤ DependencyGraph.findIndex test l < Z.of_nat (length l).
Proof.
  induction l as [|a l IH]; simpl; [lia|].
  destruct (test a); [lia|].
  destruct (Z.ltb_spec (DependencyGraph.findIndex test l) 0); lia.
Qed.

(** An index that is not -1 points at an element that passes the test. *)
Lemma findIndex_found (l : list A) :
  0 ≤ DependencyGraph.findIndex test l →
  ∃ a, l !! Z.to_nat (DependencyGraph.findIndex test l) = Some a
       ∧ test a = true.
Proof.
  induction l as [|a l IH]; simpl; [lia|].
  destruct (test a) eqn:Ha; [intros _; by exists a|].
  destruct (Z.ltb_spec (DependencyGraph.findIndex test l) 0) as [|Hge];
    [lia|].
  intros _. destruct (IH Hge) as (b & Hb & Htest). exists b.
  split; [|done].
  replace (Z.to_nat (DependencyGraph.findIndex test l + 1))
    with (S (Z.to_nat (DependencyGraph.findIndex test l))) by lia.
  done.
Qed.

(** An element that passes the test is found. *)
Lemma findIndex_present (l : list A) (a : A) :
  a ∈ l → test a = true → 0 ≤ DependencyGraph.findIndex test l.
Proof.
  induction l as [|b l IH]; intros Hin Ha; [by apply elem_of_nil in Hin|].
  simpl. destruct (test b) eqn:Hb; [lia|].
  apply elem_of_cons in Hin as [->|Hin]; [congruence|].
  specialize (IH Hin Ha).
  destruct (Z.ltb_spec (DependencyGraph.findIndex test l) 0); lia.
Qed.

End FindIndex.

(** X20.  Two tasks of the input are drawn at the same position only if
    they have the same id: tasks of different levels differ in [x], and
    tasks of one level differ in [y].  Every position is at (100, 100) or
    to the right of and below it. *)
Theorem nodes_do_not_overlap (lv : gmap string nat) (tasks : list Task)
    (criticalPath : list string) (t t' : Task) :
  t ∈ tasks → t' ∈ tasks →
  let node := DependencyGraph.nodeOf lv
                (DependencyGraph.tasksByLevel lv tasks) criticalPath in
  (100 ≤ DependencyGraph.x (node t) ∧ 100 ≤ DependencyGraph.y (node t))
  ∧ (DependencyGraph.x (node t) = DependencyGraph.x (node t') →
     DependencyGraph.y (node t) = DependencyGraph.y (node t') →
     id t = id t').
Proof.
  intros Ht Ht'. cbv zeta. unfold DependencyGraph.nodeOf. simpl.
  rewrite !tasksByLevel_group.
  assert (Hfound : ∀ u, u ∈ tasks →
    0 ≤ DependencyGraph.findIndex (λ t0, bool_decide (id t0 = id u))
          (filter (λ t0, DependencyGraph.levelOf lv t0
                         = DependencyGraph.levelOf lv u) tasks)).
  { intros u Hu. apply (findIndex_present _ _ u).
    - by apply list_elem_of_filter.
    - by apply bool_decide_eq_true. }
  split.
  - pose proof (Hfound t Ht). lia.
  - intros Hx Hy.
    assert (Hlevel : DependencyGraph.levelOf lv t
                     = DependencyGraph.levelOf lv t') by lia.
    rewrite Hlevel in Hy.
    destruct (findIndex_found _ _ (Hfound t Ht)) as (a & Ha & Hta).
    destruct (findIndex_found _ _ (Hfound t' Ht')) as (b & Hb & Htb).
    rewrite Hlevel in Ha.
    assert (Hindex :
      DependencyGraph.findIndex (λ t0, bool_decide (id t0 = id t))
        (filter (λ t0, DependencyGraph.levelOf lv t0
                       = DependencyGraph.levelOf lv t') tasks)
      = DependencyGraph.findIndex (λ t0, bool_decide (id t0 = id t'))
        (filter (λ t0, DependencyGraph.levelOf lv t0
                       = DependencyGraph.levelOf lv t') tasks)) by lia.
    rewrite Hindex in Ha. rewrite Ha in Hb. injection Hb as <-.
    apply bool_decide_eq_true in Hta, Htb. congruence.
Qed.

(** The tasks [a] and [b] of the chain [c -> b -> a]. *)
Lemma nodes_do_not_overlap_witness :
  100 ≤ DependencyGraph.x
          (DependencyGraph.nodeOf ∅
             (DependencyGraph.tasksByLevel ∅ Sample.chain) [] Sample.a1).
Proof.
  destruct (nodes_do_not_overlap ∅ Sample.chain [] Sample.a1 Sample.b1)
    as [[H _] _]; [set_solver|set_solver|exact H].
Defined.

(** ** Critical edges *)

(** X21.  Every edge of the graph goes from a dependency of a task to the
    task, and an edge is drawn as critical only if the task directly
    follows the dependency on the critical path. *)
Theorem critical_edges_are_consecutive (criticalPath : list string)
    (task : Task) (e : DependencyGraph.GraphEdge) :
  e ∈ DependencyGraph.edgesOf criticalPath task →
  DependencyGraph.from e ∈ dependencies task
  ∧ DependencyGraph.to e = id task
  ∧ (DependencyGraph.critical e = true →
     ∃ i, criticalPath !! i = Some (DependencyGraph.from e)
          ∧ criticalPath !! S i = Some (DependencyGraph.to e)).
Proof.
  unfold DependencyGraph.edgesOf. intros He.
  apply list_elem_of_fmap in He as (dep & -> & Hdep). simpl.
  split; [done|]. split; [done|]. intros Hcritical.
  apply andb_true_iff in Hcritical as [Hboth Hnext].
  apply andb_true_iff in Hboth as [Hd Ht].
  apply negb_true_iff, Z.eqb_neq in Hd, Ht. apply Z.eqb_eq in Hnext.
  unfold DependencyGraph.indexOf in *.
  pose proof (findIndex_bounds (λ y, bool_decide (y = dep)) criticalPath).
  pose proof (findIndex_bounds (λ y, bool_decide (y = id task)) criticalPath).
  destruct (findIndex_found (λ y, bool_decide (y = dep)) criticalPath)
    as (a & Ha & Hta); [lia|].
  destruct (findIndex_found (λ y, bool_decide (y = id task)) criticalPath)
    as (b & Hb & Htb); [lia|].
  apply bool_decide_eq_true in Hta as ->.
  apply bool_decide_eq_true in Htb as ->.
  eexists. split; [done|]. rewrite <- Hb. f_equal. lia.
Qed.

(** The edge from [a] to [b] with the critical path [a], [b]. *)
Lemma critical_edges_are_consecutive_witness :
  DependencyGraph.from (DependencyGraph.mkEdge "a" "b" true)
    ∈ dependencies Sample.b1.
Proof.
  destruct (critical_edges_are_consecutive ["a"; "b"] Sample.b1
              (DependencyGraph.mkEdge "a" "b" true)) as [H _];
    [by left|exact H].
Defined.

(** ** The dependency manager *)

(** X22.  Whatever the user does in the dependency manager, the list it
    sends never contains the task itself and never contains an id twice,
    provided the task's current dependencies are so; each id that was added
    is the id of a listed task. *)
Theorem selection_never_proposes_self (task : Task) (allTasks : list Task)
    (actions : list DependencyManager.Action) :
  id task ∉ dependencies task → NoDup (dependencies task) →
  (id task ∉ DependencyManager.selection task allTasks actions)
  ∧ NoDup (DependencyManager.selection task allTasks actions)
  ∧ (∀ d, d ∈ DependencyManager.selection task allTasks actions →
       d ∈ dependencies task ∨ ∃ t, t ∈ allTasks ∧ id t = d)
  ∧ selfFree (AddDependencies (id task)
       (Some (DependencyManager.selection task allTasks actions))).
Proof.
  unfold DependencyManager.selection. intros Hself Hnd.
  set (selected := dependencies task) in *.
  assert (Hgen : ∀ sel, id task ∉ sel → NoDup sel →
    (∀ d, d ∈ sel → d ∈ selected ∨ ∃ t, t ∈ allTasks ∧ id t = d) →
    (id task ∉ fold_left (DependencyManager.act task allTasks) actions sel)
    ∧ NoDup (fold_left (DependencyManager.act task allTasks) actions sel)
    ∧ ∀ d, d ∈ fold_left (DependencyManager.act task allTasks) actions sel →
        d ∈ selected ∨ ∃ t, t ∈ allTasks ∧ id t = d).
  { induction actions as [|a actions IH]; intros sel Hs Hn Hfrom; [done|].
    simpl.
    assert (Hadd : ∀ t,
      t ∈ DependencyManager.availableTasks task allTasks sel →
      (id task ∉ DependencyManager.addDependency sel (id t))
      ∧ NoDup (DependencyManager.addDependency sel (id t))
      ∧ ∀ d, d ∈ DependencyManager.addDependency sel (id t) →
          d ∈ selected ∨ ∃ t, t ∈ allTasks ∧ id t = d).
    { intros t Ht. unfold DependencyManager.availableTasks in Ht.
      apply list_elem_of_filter in Ht as [[Hne Hnew] Hin].
      unfold DependencyManager.addDependency. split; [|split].
      - intros H. apply elem_of_app in H as [H|H]; [done|].
        apply list_elem_of_singleton in H. congruence.
      - apply NoDup_app. split; [done|]. split; [|apply NoDup_singleton].
        intros x Hx Hx'. by apply list_elem_of_singleton in Hx' as ->.
      - intros d Hd. apply elem_of_app in Hd as [Hd|Hd]; [by apply Hfrom|].
        apply list_elem_of_singleton in Hd as ->. right. by exists t. }
    destruct a as [n| |depId]; simpl.
    - destruct (DependencyManager.availableTasks task allTasks sel !! n)
        as [t|] eqn:Hn'; [|by apply IH].
      apply list_elem_of_lookup_2 in Hn'.
      destruct (Hadd t Hn') as (? & ? & ?). by apply IH.
    - destruct (DependencyManager.availableTasks task allTasks sel)
        as [|t rest] eqn:Ha; [by apply IH|].
      destruct (Hadd t) as (? & ? & ?); [left|]. by apply IH.
    - apply IH.
      + unfold DependencyManager.removeDependency.
        rewrite list_elem_of_filter. naive_solver.
      + by apply NoDup_filter.
      + intros d Hd. apply list_elem_of_filter in Hd as [_ Hd].
        by apply Hfrom. }
  destruct (Hgen selected Hself Hnd) as (H1 & H2 & H3); [by left|].
  split; [done|]. split; [done|]. split; [done|]. exact H1.
Qed.

(** Task [a] of the unrelated tasks [a], [b]: picking the first task
    offered selects [b]. *)
Lemma selection_never_proposes_self_witness :
  id Sample.a0
    ∉ DependencyManager.selection Sample.a0 [Sample.a0; Sample.b0]
        [DependencyManager.Pick 0].
Proof.
  destruct (selection_never_proposes_self Sample.a0 [Sample.a0; Sample.b0]
              [DependencyManager.Pick 0]) as [H _];
    [simpl; set_solver|apply NoDup_nil_2|exact H].
Defined.

(** ** The entries of the earliest-start object *)

(** X23.  The earliest-start object has an entry for the title of every
    task whose title is not [__proto__], and no other entry: it never has
    an entry [__proto__], and each entry holds the earliest start computed
    for a task with that title. *)
Theorem earliest_start_entries (now : Z) (tasks : list Task) :
  (∀ t, t ∈ tasks → title t ≠ "__proto__" →
     is_Some (Analysis.calculateEarliestStartDates now tasks !! title t))
  ∧ Analysis.calculateEarliestStartDates now tasks !! "__proto__" = None
  ∧ (∀ k v, Analysis.calculateEarliestStartDates now tasks !! k = Some v →
       k ≠ "__proto__"
       ∧ ∃ t, t ∈ tasks ∧ title t = k
              ∧ v = Analysis.calculateEarliestStartDate now t
                      (Analysis.idMap tasks)).
Proof.
  split; [|split; [apply calculateEarliestStartDates_proto|]].
  - rewrite calculateEarliestStartDates_newMap.
    intros t Ht Htitle. apply newMap_is_Some. rewrite <- list_fmap_compose.
    apply list_elem_of_fmap. exists t. split; [done|].
    by apply list_elem_of_filter.
  - intros k v Hk. split.
    + intros ->. by rewrite calculateEarliestStartDates_proto in Hk.
    + rewrite calculateEarliestStartDates_newMap in Hk.
      apply newMap_Some, list_elem_of_fmap in Hk as (t & [= -> ->] & Ht).
      apply list_elem_of_filter in Ht as [_ Ht]. by exists t.
Qed.

(** The chain [c -> b -> a]. *)
Lemma earliest_start_entries_witness :
  is_Some (Analysis.calculateEarliestStartDates 0 Sample.chain
             !! title Sample.c1).
Proof.
  destruct (earliest_start_entries 0 Sample.chain) as [H _].
  apply H; [set_solver|discriminate].
Defined.

(** The chain [c -> b -> a], one day after the due date of [a] is past. *)
Lemma total_duration_at_least_path_length_witness :
  ∃ res, Analysis.GET (11 * Sample.day) Sample.chain = Some res
    ∧ (length (Analysis.criticalPath res) ≤ length Sample.chain)%nat
    ∧ Z.of_nat (length (Analysis.criticalPath res))
      ≤ Analysis.totalDuration res.
Proof.
  apply (total_duration_at_least_path_length (11 * Sample.day) Sample.chain).
  - simpl. repeat (apply NoDup_cons; split; [set_solver|]). apply NoDup_nil_2.
  - intros t d Ht Hd. unfold Sample.chain in Ht.
    repeat (apply elem_of_cons in Ht as [->|Ht]); simpl in Hd.
    + apply list_elem_of_singleton in Hd as ->.
      exists Sample.a1. split; [set_solver|done].
    + by apply elem_of_nil in Hd.
    + apply list_elem_of_singleton in Hd as ->.
      exists Sample.b1. split; [set_solver|done].
    + by apply elem_of_nil in Ht.
Defined.
